(** * aioprometheus: the ASGI metrics middleware

    A shallow embedding of [src/aioprometheus/asgi/middleware.py]
    (class [MetricsMiddleware]) and the properties of its request
    life cycle: lazy metric creation, application-handle capture, path
    classification, exclusion filtering, response interception and
    exception accounting.

    Python objects that the middleware mutates ([self], the registries,
    the outbound channel) are threaded through a small state-and-exception
    monad.  The collaborators that live outside the file (the registry, the
    Starlette routes, the wrapped ASGI application, the exceptions they
    raise) are the fields of the class [Collaborators]: every theorem holds
    for each implementation of them. *)

From stdpp Require Import gmap strings list fin_maps functions.
From Stdlib Require Import ZArith DecimalString DecimalZ DecimalPos.
From Stdlib Require DecimalFacts.

(** ** Data *)

(** [EXCLUDE_PATHS], the default of the [exclude_paths] argument. *)
Definition EXCLUDE_PATHS : list string :=
  [ "/metrics"; "/metrics/"; "/docs"; "/openapi.json";
    "/docs/oauth2-redirect"; "/redoc"; "/favicon.ico" ].

(** A label dictionary: [{"method": method, "path": path}], later extended
    with ["status_code"].  [scope.get("method")] is [None] when the key is
    absent (a websocket scope), hence the optional value. *)
Abbreviation Labels := (gmap string (option string)).

(** [Scope = Dict[str, Any]], restricted to the keys the middleware reads.
    [scope["type"]] is mandatory in ASGI; the other keys are read with
    [scope.get], so that an absent key is [None]. *)
Record Scope (App : Type) : Type := mkScope {
  scope_type : string;
  scope_app : option App;
  scope_method : option string;
  scope_root_path : option string;
  scope_path : option string
}.
Arguments mkScope {App}.
Arguments scope_type {App}.
Arguments scope_app {App}.
Arguments scope_method {App}.
Arguments scope_root_path {App}.
Arguments scope_path {App}.

(** [Message = Dict[str, Any]]: an outbound ASGI event.  [response["type"]]
    and [response["status"]] are the two keys [wrapped_send] reads; the
    status is an [int] and is only looked at on ["http.response.start"].
    The rest of the dictionary is carried along as [msg_body]. *)
Record Message : Type := mkMessage {
  msg_type : string;
  msg_status : Z;
  msg_body : string
}.

(** Modelled from the spec: the enum-like match kind returned by
    [route.matches] (Starlette's [Match], not part of this repository):
    a tri-state result no-match / partial-match / full-match, whose
    [value] is 0, 1 and 2; "Enum value 2 represents the route template
    Match.FULL". *)
Inductive Match : Type := NONE | PARTIAL | FULL.

Definition Match_value (m : Match) : Z :=
  match m with NONE => 0 | PARTIAL => 1 | FULL => 2 end.

(** What a registry sees of a collector when [Counter(name, doc,
    const_labels=..., registry=...)] registers itself. *)
Record CounterDef : Type := mkCounterDef {
  def_name : string;
  def_doc : string;
  def_const_labels : option Labels
}.

(** Modelled from the spec: the [Counter] class ([aioprometheus.Counter] is
    imported, its source is not in this file).  The spec consumes it "as an
    opaque counter abstraction with an [increment(labelset)] operation":
    the state of a counter is the sequence of label sets it was incremented
    with, oldest first. *)
Record Counter : Type := mkCounter {
  counter_def : CounterDef;
  counter_incs : list Labels
}.

Definition Counter_inc (labels : Labels) (c : Counter) : Counter :=
  {| counter_def := counter_def c;
     counter_incs := counter_incs c ++ [labels] |}.

(** The value a counter exposes for one label set: how often it was
    incremented with it. *)
Definition Counter_get (labels : Labels) (c : Counter) : nat :=
  length (filter (λ l, l = labels) (counter_incs c)).

(** The collaborators of the middleware. *)
Class Collaborators : Type := {
  (** the Starlette / FastAPI application found under [scope["app"]] *)
  App : Type;
  Route : Type;
  routes : App → list Route;
  path : Route → string;
  matches : Route → Scope App → Match * Scope App;
  (** the [receive] callable, passed on untouched *)
  Receive : Type;
  (** exceptions raised by the collaborators, and whether one is an
      instance of [Exception] (as opposed to a bare [BaseException]) *)
  ExtExn : Type;
  isinstance_Exception : ExtExn → bool;
  (** a [Registry] object and its [register] method, which either raises
      or yields the updated registry *)
  Registry : Type;
  register : CounterDef → Registry → ExtExn + Registry
}.

(** Python's [str(int)]. *)
Definition str (z : Z) : string := NilEmpty.string_of_int (Z.to_int z).

Section Model.
Context `{Collaborators}.

(** Exceptions that travel through the middleware. *)
Inductive exn : Type :=
| Exception (msg : string)        (* [raise Exception(msg)] *)
| AttributeError (attr : string)  (* a counter attribute read before [create_metrics] *)
| IndexError                      (* [status_code[0]] on an empty string *)
| Foreign (e : ExtExn).           (* raised by a collaborator *)

(** [except Exception:] catches instances of [Exception] only. *)
Definition except_Exception (e : exn) : bool :=
  match e with
  | Foreign x => isinstance_Exception x
  | _ => true
  end.

(** The behaviour of one (terminating) invocation of an ASGI callable, as
    seen through the [send] it was given: it awaits [send(m)] some number
    of times, then returns or raises. *)
Inductive Proc : Type :=
| PReturn
| PRaise (e : ExtExn)
| PSend (m : Message) (k : Proc).

(** [ASGICallable]: the behaviour depends on the scope and on what
    [receive] delivers. *)
Definition ASGICallable : Type := Scope App → Receive → Proc.

(** The [registry] argument of the constructor: [None], a [Registry]
    (here a reference to one of the registries of the process), or an
    object of some other type. *)
Inductive RegistryArg : Type :=
| RegNone
| RegRegistry (r : nat)
| RegOther (type_repr : string).

(** [REGISTRY], the default registry of the process. *)
Definition REGISTRY : nat := 0.

(** The instance attributes of a [MetricsMiddleware].  The four counter
    attributes do not exist before [create_metrics] assigns them. *)
Record MetricsMiddleware : Type := mkMiddleware {
  asgi_callable : ASGICallable;
  starlette_app : option App;
  exclude_paths : list string;
  use_template_urls : bool;
  group_status_codes : bool;
  registry : option nat;
  const_labels : option Labels;
  metrics_created : bool;
  requests_counter : option Counter;
  responses_counter : option Counter;
  exceptions_counter : option Counter;
  status_codes_counter : option Counter
}.

(** Which [send] the next callable was handed: the caller's own, or the
    closure [wrapped_send] (which captures [labels]). *)
Inductive SendRef : Type :=
| OriginalSend
| WrappedSend (labels : Labels).

(** One call [self.asgi_callable(scope, receive, send)]. *)
Record Invocation : Type := mkInvocation {
  inv_scope : Scope App;
  inv_receive : Receive;
  inv_send : SendRef
}.

(** What lives outside the instance: the registries of the process, the
    calls made to the next callable and the messages handed to the
    caller's [send], both oldest first. *)
Record World : Type := mkWorld {
  registries : nat → Registry;
  invocations : list Invocation;
  outbox : list Message
}.

Record State : Type := mkState {
  self : MetricsMiddleware;
  world : World
}.

(** ** The state-and-exception monad *)

Inductive Result (A : Type) : Type :=
| Normal (a : A)
| Raises (e : exn).
Arguments Normal {A}.
Arguments Raises {A}.

Definition M (A : Type) : Type := State → Result A * State.

Definition ret {A} (a : A) : M A := λ s, (Normal a, s).

Definition bind {A B} (c : M A) (k : A → M B) : M B := λ s,
  match c s with
  | (Normal a, s') => k a s'
  | (Raises e, s') => (Raises e, s')
  end.

Definition raise {A} (e : exn) : M A := λ s, (Raises e, s).

Definition get_self : M MetricsMiddleware := λ s, (Normal (self s), s).

Definition modify_self (f : MetricsMiddleware → MetricsMiddleware) : M unit :=
  λ s, (Normal tt, {| self := f (self s); world := world s |}).

Definition modify_world (f : World → World) : M unit :=
  λ s, (Normal tt, {| self := self s; world := f (world s) |}).

(** [try: body  except Exception: handler; raise]: the handler runs on an
    instance of [Exception], and the bare [raise] re-raises the exception
    being handled, unless the handler itself raised. *)
Definition try_except_Exception_reraise (body handler : M unit) : M unit := λ s,
  match body s with
  | (Normal a, s') => (Normal a, s')
  | (Raises e, s') =>
      if except_Exception e then
        match handler s' with
        | (Normal _, s'') => (Raises e, s'')
        | (Raises e', s'') => (Raises e', s'')
        end
      else (Raises e, s')
  end.

End Model.

Arguments Normal {_ A}.
Arguments Raises {_ A}.

Notation "'let*' x ':=' c 'in' k" := (bind c (λ x, k))
  (at level 10, x name, c at level 100, k at level 200).
Notation "c ';;;' k" := (bind c (λ _, k))
  (at level 100, k at level 200, right associativity).

Section Operations.
Context `{Collaborators}.

(** ** Attribute assignment *)

Definition set_starlette_app (v : option App) (mw : MetricsMiddleware) :=
  {| asgi_callable := asgi_callable mw; starlette_app := v;
     exclude_paths := exclude_paths mw;
     use_template_urls := use_template_urls mw;
     group_status_codes := group_status_codes mw;
     registry := registry mw; const_labels := const_labels mw;
     metrics_created := metrics_created mw;
     requests_counter := requests_counter mw;
     responses_counter := responses_counter mw;
     exceptions_counter := exceptions_counter mw;
     status_codes_counter := status_codes_counter mw |}.

Definition set_metrics_created (v : bool) (mw : MetricsMiddleware) :=
  {| asgi_callable := asgi_callable mw; starlette_app := starlette_app mw;
     exclude_paths := exclude_paths mw;
     use_template_urls := use_template_urls mw;
     group_status_codes := group_status_codes mw;
     registry := registry mw; const_labels := const_labels mw;
     metrics_created := v;
     requests_counter := requests_counter mw;
     responses_counter := responses_counter mw;
     exceptions_counter := exceptions_counter mw;
     status_codes_counter := status_codes_counter mw |}.

Definition set_requests_counter (v : option Counter) (mw : MetricsMiddleware) :=
  {| asgi_callable := asgi_callable mw; starlette_app := starlette_app mw;
     exclude_paths := exclude_paths mw;
     use_template_urls := use_template_urls mw;
     group_status_codes := group_status_codes mw;
     registry := registry mw; const_labels := const_labels mw;
     metrics_created := metrics_created mw;
     requests_counter := v;
     responses_counter := responses_counter mw;
     exceptions_counter := exceptions_counter mw;
     status_codes_counter := status_codes_counter mw |}.

Definition set_responses_counter (v : option Counter) (mw : MetricsMiddleware) :=
  {| asgi_callable := asgi_callable mw; starlette_app := starlette_app mw;
     exclude_paths := exclude_paths mw;
     use_template_urls := use_template_urls mw;
     group_status_codes := group_status_codes mw;
     registry := registry mw; const_labels := const_labels mw;
     metrics_created := metrics_created mw;
     requests_counter := requests_counter mw;
     responses_counter := v;
     exceptions_counter := exceptions_counter mw;
     status_codes_counter := status_codes_counter mw |}.

Definition set_exceptions_counter (v : option Counter) (mw : MetricsMiddleware) :=
  {| asgi_callable := asgi_callable mw; starlette_app := starlette_app mw;
     exclude_paths := exclude_paths mw;
     use_template_urls := use_template_urls mw;
     group_status_codes := group_status_codes mw;
     registry := registry mw; const_labels := const_labels mw;
     metrics_created := metrics_created mw;
     requests_counter := requests_counter mw;
     responses_counter := responses_counter mw;
     exceptions_counter := v;
     status_codes_counter := status_codes_counter mw |}.

Definition set_status_codes_counter (v : option Counter) (mw : MetricsMiddleware) :=
  {| asgi_callable := asgi_callable mw; starlette_app := starlette_app mw;
     exclude_paths := exclude_paths mw;
     use_template_urls := use_template_urls mw;
     group_status_codes := group_status_codes mw;
     registry := registry mw; const_labels := const_labels mw;
     metrics_created := metrics_created mw;
     requests_counter := requests_counter mw;
     responses_counter := responses_counter mw;
     exceptions_counter := exceptions_counter mw;
     status_codes_counter := v |}.

(** The four counter attributes, to read and assign them uniformly. *)
Inductive CounterAttr : Type :=
| requests_counter_attr
| responses_counter_attr
| exceptions_counter_attr
| status_codes_counter_attr.

#[global] Instance CounterAttr_eq_dec : EqDecision CounterAttr.
Proof. solve_decision. Defined.

Definition attr_name (a : CounterAttr) : string :=
  match a with
  | requests_counter_attr => "requests_counter"
  | responses_counter_attr => "responses_counter"
  | exceptions_counter_attr => "exceptions_counter"
  | status_codes_counter_attr => "status_codes_counter"
  end.

Definition getattr (a : CounterAttr) (mw : MetricsMiddleware) : option Counter :=
  match a with
  | requests_counter_attr => requests_counter mw
  | responses_counter_attr => responses_counter mw
  | exceptions_counter_attr => exceptions_counter mw
  | status_codes_counter_attr => status_codes_counter mw
  end.

Definition setattr (a : CounterAttr) (v : option Counter)
    (mw : MetricsMiddleware) : MetricsMiddleware :=
  match a with
  | requests_counter_attr => set_requests_counter v mw
  | responses_counter_attr => set_responses_counter v mw
  | exceptions_counter_attr => set_exceptions_counter v mw
  | status_codes_counter_attr => set_status_codes_counter v mw
  end.

(** [self.<attr>.inc(labels)] *)
Definition inc (a : CounterAttr) (labels : Labels) : M unit :=
  let* mw := get_self in
  match getattr a mw with
  | Some c => modify_self (setattr a (Some (Counter_inc labels c)))
  | None => raise (AttributeError (attr_name a))
  end.

(** ** The constructor *)

(** [MetricsMiddleware.__init__].  It touches no registry, so the world
    comes back as it went in. *)
Definition __init__ (app : ASGICallable) (registry_arg : RegistryArg)
    (exclude_paths_arg : list string) (use_template_urls_arg : bool)
    (group_status_codes_arg : bool) (const_labels_arg : option Labels)
    (w : World) : Result MetricsMiddleware * World :=
  let exclude := match exclude_paths_arg with [] => [] | _ => exclude_paths_arg end in
  match registry_arg with
  | RegOther type_repr =>
      (Raises (Exception ("registry must be a Registry, got: " +:+ type_repr)), w)
  | RegNone | RegRegistry _ =>
      (Normal
         {| asgi_callable := app;
            starlette_app := None;
            exclude_paths := exclude;
            use_template_urls := use_template_urls_arg;
            group_status_codes := group_status_codes_arg;
            registry := match registry_arg with RegRegistry r => Some r | _ => None end;
            const_labels := const_labels_arg;
            metrics_created := false;
            requests_counter := None;
            responses_counter := None;
            exceptions_counter := None;
            status_codes_counter := None |}, w)
  end.

(** ** Metric creation *)

(** Modelled from the spec: the constructor [Counter(name, doc,
    const_labels=..., registry=...)] of the imported collector class.  The
    new counter registers itself with the given registry, or with the
    process-wide default one when [registry] is [None] ("registry reference
    (or default shared registry)"); a rejection by the registry propagates. *)
Definition Counter_new (name doc : string) (cl : option Labels)
    (reg : option nat) : M Counter := λ s,
  let r := default REGISTRY reg in
  let d := {| def_name := name; def_doc := doc; def_const_labels := cl |} in
  match register d (registries (world s) r) with
  | inl e => (Raises (Foreign e), s)
  | inr reg' =>
      (Normal {| counter_def := d; counter_incs := [] |},
       {| self := self s;
          world := {| registries := <[r := reg']> (registries (world s));
                      invocations := invocations (world s);
                      outbox := outbox (world s) |} |})
  end.

(** [MetricsMiddleware.create_metrics] *)
Definition create_metrics : M unit :=
  let* mw := get_self in
  let* c := Counter_new "requests_total_counter"
              "Total number of requests received"
              (const_labels mw) (registry mw) in
  modify_self (set_requests_counter (Some c)) ;;;
  let* c := Counter_new "responses_total_counter"
              "Total number of responses sent"
              (const_labels mw) (registry mw) in
  modify_self (set_responses_counter (Some c)) ;;;
  let* c := Counter_new "exceptions_total_counter"
              "Total number of requested which generated an exception"
              (const_labels mw) (registry mw) in
  modify_self (set_exceptions_counter (Some c)) ;;;
  let* c := Counter_new "status_codes_counter"
              "Total number of response status codes"
              (const_labels mw) (registry mw) in
  modify_self (set_status_codes_counter (Some c)) ;;;
  modify_self (set_metrics_created true).

(** ** Path classification *)

(** The loop [for route in self.starlette_app.routes] of
    [get_full_or_template_path]: the first route whose match has value 2
    returns its [path]; falling off the end of the loop returns nothing. *)
Fixpoint route_loop (rs : list Route) (scope : Scope App) : option string :=
  match rs with
  | [] => None
  | route :: rest =>
      let '(match_, _child_scope) := matches route scope in
      if (Match_value match_ =? 2)%Z then Some (path route)
      else route_loop rest scope
  end.

(** [MetricsMiddleware.get_full_or_template_path].  It only reads [self]. *)
Definition get_full_or_template_path (mw : MetricsMiddleware)
    (scope : Scope App) : string :=
  let root_path := default "" (scope_root_path scope) in
  let path := default "" (scope_path scope) in
  let full_path := root_path +:+ path in
  if use_template_urls mw then
    match starlette_app mw with
    | Some app =>
        match route_loop (routes app) scope with
        | Some template => template
        | None => full_path
        end
    | None => full_path
    end
  else full_path.

(** ** Response interception *)

(** The caller's [send]: the message reaches the outbound channel. *)
Definition send (response : Message) : M unit :=
  modify_world (λ w, {| registries := registries w;
                        invocations := invocations w;
                        outbox := outbox w ++ [response] |}).

(** The [status_code] label of a response: [f"{status_code[0]}xx"] when
    grouping, [status_code] otherwise, for [status_code = str(status)].
    Indexing an empty string raises. *)
Definition status_code_label (group : bool) (status : Z) : Result string :=
  let status_code := str status in
  if group then
    match status_code with
    | String c _ => Normal (String c "xx")
    | EmptyString => Raises IndexError
    end
  else Normal status_code.

(** The closure [wrapped_send] of [__call__], for the [labels] of the
    calling context. *)
Definition wrapped_send (labels : Labels) (response : Message) : M unit :=
  (if decide (msg_type response = "http.response.start") then
     let* mw := get_self in
     match status_code_label (group_status_codes mw) (msg_status response) with
     | Raises e => raise e
     | Normal status_code =>
         let status_code_labels := <["status_code" := Some status_code]> labels in
         inc status_codes_counter_attr status_code_labels ;;;
         inc responses_counter_attr labels
     end
   else ret tt) ;;;
  send response.

(** Running the next callable against the [send] it was handed.  An
    exception raised by that [send] surfaces in the callable at its
    [await] and, not being handled there, leaves it. *)
Fixpoint run (snd : Message → M unit) (p : Proc) : M unit :=
  match p with
  | PReturn => ret tt
  | PRaise e => raise (Foreign e)
  | PSend m k => snd m ;;; run snd k
  end.

Definition send_of (r : SendRef) : Message → M unit :=
  match r with
  | OriginalSend => send
  | WrappedSend labels => wrapped_send labels
  end.

(** [await self.asgi_callable(scope, receive, <send>)] *)
Definition await_asgi_callable (scope : Scope App) (receive : Receive)
    (r : SendRef) : M unit :=
  let* mw := get_self in
  modify_world (λ w, {| registries := registries w;
                        invocations := invocations w ++
                          [{| inv_scope := scope; inv_receive := receive;
                              inv_send := r |}];
                        outbox := outbox w |}) ;;;
  run (send_of r) (asgi_callable mw scope receive).

(** ** The request life cycle *)

(** The body of the [except Exception:] clause, before its [raise]. *)
Definition failure_accounting (labels : Labels) : M unit :=
  inc exceptions_counter_attr labels ;;;
  let* mw := get_self in
  let status_code_labels :=
    <["status_code" := Some (if group_status_codes mw then "5xx" else "500")]> labels in
  inc status_codes_counter_attr status_code_labels ;;;
  inc responses_counter_attr labels.

(** [MetricsMiddleware.__call__] *)
Definition __call__ (scope : Scope App) (receive : Receive) : M unit :=
  (let* mw := get_self in
   if negb (metrics_created mw) then create_metrics else ret tt) ;;;
  (let* mw := get_self in
   match starlette_app mw with
   | None =>
       if decide (scope_type scope ∈ ["lifespan"; "http"; "websocket"])
       then modify_self (set_starlette_app (scope_app scope))
       else ret tt
   | Some _ => ret tt
   end) ;;;
  if decide (scope_type scope = "lifespan") then
    await_asgi_callable scope receive OriginalSend
  else if decide (scope_type scope ∈ ["http"; "websocket"]) then
    let method := scope_method scope in
    let* mw := get_self in
    let path := get_full_or_template_path mw scope in
    let labels : Labels := <["path" := Some path]> (<["method" := method]> ∅) in
    if decide (path ∈ exclude_paths mw) then
      await_asgi_callable scope receive OriginalSend
    else
      inc requests_counter_attr labels ;;;
      try_except_Exception_reraise
        (await_asgi_callable scope receive (WrappedSend labels))
        (failure_accounting labels)
  else ret tt.

End Operations.

(** * The call as a coroutine

    [__call__] is an [async def]: a call runs until it awaits the next
    callable, and several calls on one instance are in flight at once.
    This part names the blocks of the body of [__call__] and cuts a call
    into the steps between which another call may run. *)

Section Coroutine.
Context `{Collaborators}.

(** The three blocks of the body of [__call__]: the metric-creation guard,
    the handle capture, and the dispatch on the type of the event. *)
Definition ensure_metrics : M unit :=
  let* mw := get_self in
  if negb (metrics_created mw) then create_metrics else ret tt.

Definition capture_app (scope : Scope App) : M unit :=
  let* mw := get_self in
  match starlette_app mw with
  | None =>
      if decide (scope_type scope ∈ ["lifespan"; "http"; "websocket"])
      then modify_self (set_starlette_app (scope_app scope))
      else ret tt
  | Some _ => ret tt
  end.

Definition dispatch (scope : Scope App) (receive : Receive) : M unit :=
  if decide (scope_type scope = "lifespan") then
    await_asgi_callable scope receive OriginalSend
  else if decide (scope_type scope ∈ ["http"; "websocket"]) then
    let method := scope_method scope in
    let* mw := get_self in
    let path := get_full_or_template_path mw scope in
    let labels : Labels := <["path" := Some path]> (<["method" := method]> ∅) in
    if decide (path ∈ exclude_paths mw) then
      await_asgi_callable scope receive OriginalSend
    else
      inc requests_counter_attr labels ;;;
      try_except_Exception_reraise
        (await_asgi_callable scope receive (WrappedSend labels))
        (failure_accounting labels)
  else ret tt.

(** Serving a sequence of events, one call after the other. *)
Fixpoint serve (events : list (Scope App * Receive)) (s : State) : State :=
  match events with
  | [] => s
  | (scope, receive) :: rest => serve rest (__call__ scope receive s).2
  end.

(** ** Concurrent calls

    A call in flight, at one of the points where another call may run. *)
Inductive Task : Type :=
| Pending (scope : Scope App) (receive : Receive)
    (* [__call__] has been entered, nothing has run *)
| Checked (created : bool) (scope : Scope App) (receive : Receive)
    (* [self.metrics_created] has been read, the [if] is not yet taken *)
| Awaiting (r : SendRef) (p : Proc)
    (* inside [await self.asgi_callable(...)]; [p] is what the callable
       still has to do *)
| Finished (res : Result unit).

Definition finish (c : Result unit * State) : Task * State :=
  (Finished c.1, c.2).

(** From the handle capture to the [await]: the rest of [__call__] up to
    the point where it hands control to the next callable, if it does.
    The result is the [send] it passes and what the callable will do. *)
Definition enter (scope : Scope App) (receive : Receive) (r : SendRef)
    : M (option (SendRef * Proc)) :=
  let* mw := get_self in
  modify_world (λ w, {| registries := registries w;
                        invocations := invocations w ++
                          [{| inv_scope := scope; inv_receive := receive;
                              inv_send := r |}];
                        outbox := outbox w |}) ;;;
  ret (Some (r, asgi_callable mw scope receive)).

Definition after_guard (scope : Scope App) (receive : Receive)
    : M (option (SendRef * Proc)) :=
  capture_app scope ;;;
  if decide (scope_type scope = "lifespan") then
    enter scope receive OriginalSend
  else if decide (scope_type scope ∈ ["http"; "websocket"]) then
    let method := scope_method scope in
    let* mw := get_self in
    let path := get_full_or_template_path mw scope in
    let labels : Labels := <["path" := Some path]> (<["method" := method]> ∅) in
    if decide (path ∈ exclude_paths mw) then
      enter scope receive OriginalSend
    else
      inc requests_counter_attr labels ;;;
      enter scope receive (WrappedSend labels)
  else ret None.

(** The next callable raised [e] inside the [await]. *)
Definition leave (r : SendRef) (e : exn) : M unit :=
  match r with
  | OriginalSend => raise e
  | WrappedSend labels =>
      try_except_Exception_reraise (raise e) (failure_accounting labels)
  end.

(** One step of one call, for threads: besides the awaits, a switch may
    fall between the test of [metrics_created] and what follows it. *)
Definition step (t : Task) (s : State) : Task * State :=
  match t with
  | Pending scope receive =>
      (Checked (metrics_created (self s)) scope receive, s)
  | Checked created scope receive =>
      match ((if negb created then create_metrics else ret tt) ;;;
             after_guard scope receive) s with
      | (Normal (Some (r, p)), s') => (Awaiting r p, s')
      | (Normal None, s') => (Finished (Normal tt), s')
      | (Raises e, s') => (Finished (Raises e), s')
      end
  | Awaiting r PReturn => (Finished (Normal tt), s)
  | Awaiting r (PRaise e) => finish (leave r (Foreign e) s)
  | Awaiting r (PSend m k) =>
      match send_of r m s with
      | (Normal _, s') => (Awaiting r k, s')
      | (Raises e, s') => finish (leave r e s')
      end
  | Finished res => (Finished res, s)
  end.

(** Under an event loop a coroutine runs until it awaits.  There is no
    [await] between the test of [metrics_created] and [create_metrics], so
    that the two happen in one step. *)
Definition coop_step (t : Task) (s : State) : Task * State :=
  match t with
  | Pending _ _ => let '(t', s') := step t s in step t' s'
  | _ => step t s
  end.

(** A pool of calls in flight, and a schedule: which call takes the next
    step. *)
Fixpoint run_schedule (stp : Task → State → Task * State) (sched : list nat)
    (pool : list Task) (s : State) : list Task * State :=
  match sched with
  | [] => (pool, s)
  | i :: rest =>
      match pool !! i with
      | Some t =>
          let '(t', s') := stp t s in
          run_schedule stp rest (<[i := t']> pool) s'
      | None => run_schedule stp rest pool s
      end
  end.

(** A call running alone. *)
Fixpoint run_task (fuel : nat) (t : Task) (s : State) : Task * State :=
  match fuel with
  | 0 => (t, s)
  | S fuel' => let '(t', s') := step t s in run_task fuel' t' s'
  end.

End Coroutine.

(** * Vocabulary of the properties *)

(** [chr(ord("0") + d)] *)
Definition digit_char (d : N) : Ascii.ascii := Ascii.ascii_of_N (48 + d)%N.

Section Vocabulary.
Context `{Collaborators}.

(** The increments a counter attribute has recorded (none while the
    attribute does not exist). *)
Definition incs (a : CounterAttr) (mw : MetricsMiddleware) : list Labels :=
  from_option counter_incs [] (getattr a mw).

(** The four counter attributes have been assigned. *)
Definition counters_exist (mw : MetricsMiddleware) : Prop :=
  ∀ a, is_Some (getattr a mw).

(** The invariant of an instance: once [metrics_created] is set the four
    counters exist, and before that no counter has counted anything. *)
Definition wf (mw : MetricsMiddleware) : Prop :=
  if metrics_created mw then counters_exist mw else ∀ a, incs a mw = [].

(** The messages a callable sends, in order, and how it ends ([None]: it
    returns). *)
Fixpoint emitted (p : Proc) : list Message :=
  match p with
  | PReturn | PRaise _ => []
  | PSend m k => m :: emitted k
  end.

Fixpoint outcome (p : Proc) : option ExtExn :=
  match p with
  | PReturn => None
  | PRaise e => Some e
  | PSend _ k => outcome k
  end.

Definition result_of (o : option ExtExn) : Result unit :=
  match o with
  | None => Normal tt
  | Some e => Raises (Foreign e)
  end.

(** The statuses of the ["http.response.start"] messages among [ms]. *)
Definition starts (ms : list Message) : list Z :=
  msg_status <$> filter (λ m, msg_type m = "http.response.start") ms.

(** The labels of a request and of its status-code sample. *)
Definition request_labels (method : option string) (p : string) : Labels :=
  <["path" := Some p]> (<["method" := method]> ∅).

Definition with_status_code (code : string) (labels : Labels) : Labels :=
  <["status_code" := Some code]> labels.

(** ** Pure counterparts of the state changes

    What the operations do to an instance whose counters exist. *)

(** [inc] *)
Definition inc_pure (a : CounterAttr) (labels : Labels)
    (mw : MetricsMiddleware) : MetricsMiddleware :=
  match getattr a mw with
  | Some c => setattr a (Some (Counter_inc labels c)) mw
  | None => mw
  end.

(** The label [status_code_label] computes. *)
Definition bucket (group : bool) (status : Z) : string :=
  match status_code_label group status with
  | Normal l => l
  | Raises _ => ""
  end.

(** [wrapped_send] *)
Definition on_send (labels : Labels) (mw : MetricsMiddleware) (m : Message)
    : MetricsMiddleware :=
  if decide (msg_type m = "http.response.start") then
    inc_pure responses_counter_attr labels
      (inc_pure status_codes_counter_attr
         (with_status_code (bucket (group_status_codes mw) (msg_status m)) labels) mw)
  else mw.

(** [failure_accounting] *)
Definition on_failure (labels : Labels) (mw : MetricsMiddleware) : MetricsMiddleware :=
  inc_pure responses_counter_attr labels
    (inc_pure status_codes_counter_attr
       (with_status_code (if group_status_codes mw then "5xx" else "500") labels)
       (inc_pure exceptions_counter_attr labels mw)).

(** [capture_app] *)
Definition capture (scope : Scope App) (mw : MetricsMiddleware) : MetricsMiddleware :=
  match starlette_app mw with
  | None =>
      if decide (scope_type scope ∈ ["lifespan"; "http"; "websocket"])
      then set_starlette_app (scope_app scope) mw
      else mw
  | Some _ => mw
  end.

(** [send], several times over, and the record of a call to the next
    callable. *)
Definition push_outbox (ms : list Message) (w : World) : World :=
  {| registries := registries w; invocations := invocations w;
     outbox := outbox w ++ ms |}.

Definition push_invocation (i : Invocation) (w : World) : World :=
  {| registries := registries w; invocations := invocations w ++ [i];
     outbox := outbox w |}.

(** The counters [create_metrics] assigns. *)
Definition new_counter (name doc : string) (mw : MetricsMiddleware) : Counter :=
  {| counter_def := {| def_name := name; def_doc := doc;
                       def_const_labels := const_labels mw |};
     counter_incs := [] |}.

(** [create_metrics], when every registration is accepted. *)
Definition with_metrics (mw : MetricsMiddleware) : MetricsMiddleware :=
  {| asgi_callable := asgi_callable mw; starlette_app := starlette_app mw;
     exclude_paths := exclude_paths mw;
     use_template_urls := use_template_urls mw;
     group_status_codes := group_status_codes mw;
     registry := registry mw; const_labels := const_labels mw;
     metrics_created := true;
     requests_counter := Some (new_counter "requests_total_counter"
        "Total number of requests received" mw);
     responses_counter := Some (new_counter "responses_total_counter"
        "Total number of responses sent" mw);
     exceptions_counter := Some (new_counter "exceptions_total_counter"
        "Total number of requested which generated an exception" mw);
     status_codes_counter := Some (new_counter "status_codes_counter"
        "Total number of response status codes" mw) |}.

(** Two instances that differ at most in their counters. *)
Definition same_settings (mw mw' : MetricsMiddleware) : Prop :=
  asgi_callable mw' = asgi_callable mw ∧
  starlette_app mw' = starlette_app mw ∧
  exclude_paths mw' = exclude_paths mw ∧
  use_template_urls mw' = use_template_urls mw ∧
  group_status_codes mw' = group_status_codes mw ∧
  registry mw' = registry mw ∧
  const_labels mw' = const_labels mw ∧
  metrics_created mw' = metrics_created mw.

(** The instance once a tracked request is over: the request is counted,
    every response start the callable sent is counted, and so is the
    exception it ended with, if it is an [Exception]. *)
Definition tracked (labels : Labels) (p : Proc) (mw : MetricsMiddleware)
    : MetricsMiddleware :=
  let mw' := foldl (on_send labels) (inc_pure requests_counter_attr labels mw)
               (emitted p) in
  match outcome p with
  | Some e => if isinstance_Exception e then on_failure labels mw' else mw'
  | None => mw'
  end.

(** Whether the callable ends with an exception that [except Exception]
    catches. *)
Definition fails (p : Proc) : bool :=
  match outcome p with
  | Some e => isinstance_Exception e
  | None => false
  end.

(** What is left of [__call__] once the next callable has been entered
    with the [send] [r], and after [after_guard]. *)
Definition body (r : SendRef) (p : Proc) : M unit :=
  match r with
  | OriginalSend => run send p
  | WrappedSend labels =>
      try_except_Exception_reraise (run (wrapped_send labels) p)
        (failure_accounting labels)
  end.

Definition resume (o : option (SendRef * Proc)) : M unit :=
  match o with
  | Some (r, p) => body r p
  | None => ret tt
  end.

(** A call that is not between the test of the flag and what follows. *)
Definition unchecked (t : Task) : Prop :=
  match t with
  | Checked _ _ _ => False
  | _ => True
  end.

(** What a state with its metrics created amounts to, and what every step
    keeps once it holds. *)
Definition created (s : State) : Prop :=
  counters_exist (self s) ∧ metrics_created (self s) = true.

(** ** Vocabulary of the further properties *)

(** The four collectors [create_metrics] builds, in the order in which it
    builds them. *)
Definition metric_defs (mw : MetricsMiddleware) : list CounterDef :=
  [ {| def_name := "requests_total_counter";
       def_doc := "Total number of requests received";
       def_const_labels := const_labels mw |};
    {| def_name := "responses_total_counter";
       def_doc := "Total number of responses sent";
       def_const_labels := const_labels mw |};
    {| def_name := "exceptions_total_counter";
       def_doc := "Total number of requested which generated an exception";
       def_const_labels := const_labels mw |};
    {| def_name := "status_codes_counter";
       def_doc := "Total number of response status codes";
       def_const_labels := const_labels mw |} ].

(** Registering collectors one after the other, up to the first refusal:
    the exception of that refusal, if any, and the registry as the accepted
    registrations left it. *)
Fixpoint register_all (ds : list CounterDef) (reg : Registry)
    : option ExtExn * Registry :=
  match ds with
  | [] => (None, reg)
  | d :: rest =>
      match register d reg with
      | inl e => (Some e, reg)
      | inr reg' => register_all rest reg'
      end
  end.

(** The value a counter attribute exposes for a label set (0 while the
    attribute does not exist). *)
Definition value (a : CounterAttr) (labels : Labels) (mw : MetricsMiddleware) : nat :=
  from_option (Counter_get labels) 0 (getattr a mw).

(** Every sample carries the label names of its metric: [method] and
    [path], and [status_code] besides for [status_codes_total]. *)
Definition label_names (a : CounterAttr) : gset string :=
  match a with
  | status_codes_counter_attr => {["method"; "path"; "status_code"]}
  | _ => {["method"; "path"]}
  end.

Definition well_labelled (mw : MetricsMiddleware) : Prop :=
  ∀ a, Forall (λ labels : Labels, dom labels = label_names a) (incs a mw).

(** Two instances with the same configuration: the arguments of the
    constructor. *)
Definition same_config (mw mw' : MetricsMiddleware) : Prop :=
  asgi_callable mw' = asgi_callable mw ∧
  exclude_paths mw' = exclude_paths mw ∧
  use_template_urls mw' = use_template_urls mw ∧
  group_status_codes mw' = group_status_codes mw ∧
  registry mw' = registry mw ∧
  const_labels mw' = const_labels mw.


End Vocabulary.

(** ** A concrete set of collaborators

    Routes in the style of Starlette, a registry that refuses a name it
    already holds (as the comment in [__init__] says the registry does:
    "exceptions being raised by the registry when identical metrics
    collectors are created"), and a few exception classes. *)
Module Demo.

Record DemoRoute : Type := mkRoute {
  template : string;
  full_matches : list string;     (* request paths the route matches fully *)
  partial_matches : list string   (* paths matched with another method *)
}.

Inductive DemoExn : Type :=
| ValueError (msg : string)
| RuntimeError (msg : string)
| CancelledError.

Definition demo_matches (r : DemoRoute) (scope : Scope (list DemoRoute))
    : Match * Scope (list DemoRoute) :=
  let p := default "" (scope_path scope) in
  if decide (p ∈ full_matches r) then (FULL, scope)
  else if decide (p ∈ partial_matches r) then (PARTIAL, scope)
  else (NONE, scope).

Definition demo_register (d : CounterDef) (reg : list CounterDef)
    : DemoExn + list CounterDef :=
  if decide (def_name d ∈ def_name <$> reg)
  then inl (ValueError ("A collector for " +:+ def_name d +:+ " is already registered"))
  else inr (reg ++ [d]).

#[export] Instance demo : Collaborators := {|
  App := list DemoRoute;
  Route := DemoRoute;
  routes := λ a, a;
  path := template;
  matches := demo_matches;
  Receive := unit;
  ExtExn := DemoExn;
  isinstance_Exception := λ e, match e with CancelledError => false | _ => true end;
  Registry := list CounterDef;
  register := demo_register
|}.

Definition empty_world : World :=
  {| registries := λ _, []; invocations := []; outbox := [] |}.

Definition users_app : list DemoRoute :=
  [ {| template := "/static"; full_matches := [];
       partial_matches := ["/users/42"] |};
    {| template := "/users/{id}"; full_matches := ["/users/42"; "/users/7"];
       partial_matches := [] |};
    {| template := "/users/42"; full_matches := ["/users/42"];
       partial_matches := [] |} ].

Definition http_scope (method p : string) : Scope (list DemoRoute) :=
  {| scope_type := "http"; scope_app := Some users_app;
     scope_method := Some method; scope_root_path := Some "";
     scope_path := Some p |}.

Definition response_start (status : Z) : Message :=
  {| msg_type := "http.response.start"; msg_status := status; msg_body := "" |}.

Definition response_body (b : string) : Message :=
  {| msg_type := "http.response.body"; msg_status := 0; msg_body := b |}.

Definition websocket_scope (p : string) : Scope (list DemoRoute) :=
  {| scope_type := "websocket"; scope_app := Some users_app;
     scope_method := None; scope_root_path := Some "";
     scope_path := Some p |}.

(** A scope of some other application, met after the handle was captured. *)
Definition other_scope : Scope (list DemoRoute) :=
  {| scope_type := "lifespan"; scope_app := Some [];
     scope_method := None; scope_root_path := None; scope_path := None |}.

(** An event of a type the middleware does not know. *)
Definition unknown_scope : Scope (list DemoRoute) :=
  {| scope_type := "unknown"; scope_app := Some users_app;
     scope_method := Some "GET"; scope_root_path := None;
     scope_path := Some "/orders/9" |}.

Definition websocket_message (type : string) : Message :=
  {| msg_type := type; msg_status := 0; msg_body := "" |}.

(** An application that accepts and closes every websocket, and answers
    200 to every request but [/boom], where it raises, [/late], where it
    raises after the response has started, and [/gone], where it is
    cancelled. *)
Definition demo_app : ASGICallable := λ scope _,
  if decide (scope_type scope = "websocket") then
    PSend (websocket_message "websocket.accept")
      (PSend (websocket_message "websocket.close") PReturn)
  else if decide (scope_path scope = Some "/boom") then
    PRaise (RuntimeError "boom")
  else if decide (scope_path scope = Some "/late") then
    PSend (response_start 200) (PRaise (RuntimeError "late"))
  else if decide (scope_path scope = Some "/gone") then
    PRaise CancelledError
  else PSend (response_start 200) (PSend (response_body "ok") PReturn).

(** The instance [MetricsMiddleware(demo_app, use_template_urls=...,
    group_status_codes=...)], with the default registry and exclusions, as
    [__init__] leaves it, and the state of a process that has just built
    it. *)
Definition demo_instance (templates group : bool) : MetricsMiddleware :=
  {| asgi_callable := demo_app;
     starlette_app := None;
     exclude_paths := EXCLUDE_PATHS;
     use_template_urls := templates;
     group_status_codes := group;
     registry := Some REGISTRY;
     const_labels := None;
     metrics_created := false;
     requests_counter := None;
     responses_counter := None;
     exceptions_counter := None;
     status_codes_counter := None |}.

Definition demo_state (templates group : bool) : State :=
  {| self := demo_instance templates group; world := empty_world |}.

End Demo.

(** * Properties *)

(** ** Decimal writing *)

Section Digits.
Import Decimal DecimalPos.Unsigned.
Local Open Scope N_scope.

Lemma string_of_uint_hd d :
  d ≠ Nil →
  NilEmpty.string_of_uint d = String (digit_char (hd d)) (NilEmpty.string_of_uint (tl d)).
Proof. by destruct d. Qed.

Lemma hd_le_9 d : hd d ≤ 9.
Proof. destruct d; simpl; lia. Qed.

Lemma of_lu_lt d : of_lu d < 10 ^ usize d.
Proof.
  induction d; simpl usize; rewrite ?N.pow_succ_r'; simpl of_lu;
    [rewrite N.pow_0_r | ..]; lia.
Qed.

Lemma of_lu_revapp_lt d d' : of_lu (revapp d d') < 10 ^ (usize d + usize d').
Proof.
  revert d'. induction d; intros d'; simpl revapp;
    [apply of_lu_lt | ..];
    (eapply N.lt_le_trans; [apply IHd|]);
    simpl usize; apply N.pow_le_mono_r; lia.
Qed.

Lemma of_lu_rev_lt d : of_lu (rev d) < 10 ^ usize d.
Proof.
  unfold rev. pose proof (of_lu_revapp_lt d Nil) as Hlt.
  simpl in Hlt. by rewrite N.add_0_r in Hlt.
Qed.

Lemma of_lu_rev_hd d :
  d ≠ Nil → of_lu (rev d) = of_lu (rev (tl d)) + hd d * 10 ^ usize (tl d).
Proof.
  destruct d; [done | ..]; intros _; unfold rev at 1; simpl revapp;
    rewrite of_lu_revapp; simpl hd; simpl tl; simpl of_lu; lia.
Qed.

(** The first digit of the decimal writing of a positive number. *)
Lemma to_uint_hd_bounds p :
  let d := Pos.to_uint p in
  let n := usize (tl d) in
  hd d * 10 ^ n ≤ N.pos p ∧ N.pos p < (hd d + 1) * 10 ^ n.
Proof.
  intros d n. pose proof (of_to p) as Hp. rewrite of_uint_alt in Hp.
  fold d in Hp. rewrite of_lu_rev_hd in Hp by apply to_uint_nonnil.
  pose proof (of_lu_rev_lt (tl d)) as Hlt. fold n in Hp, Hlt.
  rewrite N.mul_add_distr_r. lia.
Qed.

Lemma to_uint_hd_nonzero p : hd (Pos.to_uint p) ≠ 0.
Proof.
  intros Hhd.
  pose proof (DecimalPos.Unsigned.to_of (Pos.to_uint p)) as Hn.
  rewrite of_to in Hn. simpl in Hn.
  pose proof (to_uint_nonzero p) as Hz. pose proof (to_uint_nonnil p) as Hnil.
  destruct (Pos.to_uint p) as [|d| | | | | | | | |] eqn:Hd; try done.
  unfold unorm in Hn. simpl in Hn.
  pose proof (DecimalFacts.nb_digits_nzhead d) as Hle.
  destruct (nzhead d) eqn:Hnz; try discriminate;
    injection Hn as Hn; subst; [by destruct Hz | simpl in Hle; lia].
Qed.

End Digits.

Section Facts.
Context `{Collaborators}.

(** ** Basic facts *)

Lemma call_eq scope receive :
  __call__ scope receive = (ensure_metrics ;;; capture_app scope ;;; dispatch scope receive).
Proof. reflexivity. Qed.

Lemma state_eta (s : State) : {| self := self s; world := world s |} = s.
Proof. by destruct s. Qed.

Lemma push_outbox_nil w : push_outbox [] w = w.
Proof. destruct w; unfold push_outbox; simpl. by rewrite app_nil_r. Qed.

Lemma push_outbox_app ms1 ms2 w :
  push_outbox ms2 (push_outbox ms1 w) = push_outbox (ms1 ++ ms2) w.
Proof. unfold push_outbox; simpl. by rewrite app_assoc. Qed.

Lemma getattr_setattr a b v mw :
  getattr a (setattr b v mw) = if decide (a = b) then v else getattr a mw.
Proof. destruct a, b; case_decide; done. Qed.

Lemma string_of_uint_nonempty d :
  d ≠ Decimal.Nil → ∃ c rest, NilEmpty.string_of_uint d = String c rest.
Proof. destruct d; [done | simpl; eauto ..]. Qed.

Lemma str_nonempty z : ∃ c rest, str z = String c rest.
Proof.
  unfold str. destruct z as [|p|p]; simpl.
  - eauto.
  - apply string_of_uint_nonempty, Unsigned.to_uint_nonnil.
  - eauto.
Qed.

Lemma status_code_label_total group status :
  status_code_label group status = Normal (bucket group status).
Proof.
  unfold bucket, status_code_label.
  destruct group; [|done].
  destruct (str_nonempty status) as (c & rest & ->). done.
Qed.

Lemma counters_exist_setattr a c mw :
  counters_exist mw → counters_exist (setattr a (Some c) mw).
Proof.
  intros Hex b. rewrite getattr_setattr. case_decide; [eauto | apply Hex].
Qed.

Lemma counters_exist_inc_pure a labels mw :
  counters_exist mw → counters_exist (inc_pure a labels mw).
Proof.
  intros Hex. unfold inc_pure. destruct (getattr a mw); [|done].
  by apply counters_exist_setattr.
Qed.

Lemma inc_exists a labels s :
  counters_exist (self s) →
  inc a labels s = (Normal tt, {| self := inc_pure a labels (self s); world := world s |}).
Proof.
  intros Hex. unfold inc, inc_pure, bind, get_self.
  destruct (Hex a) as [c ->]. done.
Qed.

Lemma incs_inc_pure a b labels mw :
  counters_exist mw →
  incs a (inc_pure b labels mw) =
    if decide (a = b) then incs a mw ++ [labels] else incs a mw.
Proof.
  intros Hex. unfold incs, inc_pure. destruct (Hex b) as [c Hc]. rewrite Hc.
  rewrite getattr_setattr. case_decide; [subst; by rewrite Hc | done].
Qed.

Lemma same_settings_refl mw : same_settings mw mw.
Proof. by repeat split. Qed.

Lemma same_settings_trans mw1 mw2 mw3 :
  same_settings mw1 mw2 → same_settings mw2 mw3 → same_settings mw1 mw3.
Proof. unfold same_settings. intros ? ?. destruct_and!. repeat split; congruence. Qed.

Lemma same_settings_setattr a v mw : same_settings mw (setattr a v mw).
Proof. by destruct a; repeat split. Qed.

Lemma same_settings_inc_pure a labels mw : same_settings mw (inc_pure a labels mw).
Proof.
  unfold inc_pure. destruct (getattr a mw);
    [apply same_settings_setattr | apply same_settings_refl].
Qed.

Lemma same_settings_on_send labels mw m : same_settings mw (on_send labels mw m).
Proof.
  unfold on_send. case_decide; [|apply same_settings_refl].
  eapply same_settings_trans; apply same_settings_inc_pure.
Qed.

Lemma same_settings_on_sends labels ms mw :
  same_settings mw (foldl (on_send labels) mw ms).
Proof.
  revert mw. induction ms as [|m ms IH]; intros mw; simpl.
  - apply same_settings_refl.
  - eapply same_settings_trans; [apply same_settings_on_send | apply IH].
Qed.

Lemma same_settings_on_failure labels mw : same_settings mw (on_failure labels mw).
Proof.
  unfold on_failure.
  repeat (eapply same_settings_trans; [|apply same_settings_inc_pure]).
  apply same_settings_refl.
Qed.

Lemma counters_exist_on_send labels mw m :
  counters_exist mw → counters_exist (on_send labels mw m).
Proof.
  intros Hex. unfold on_send. case_decide; [|done].
  by do 2 apply counters_exist_inc_pure.
Qed.

Lemma counters_exist_on_sends labels ms mw :
  counters_exist mw → counters_exist (foldl (on_send labels) mw ms).
Proof.
  revert mw. induction ms as [|m ms IH]; intros mw Hex; simpl; [done|].
  by apply IH, counters_exist_on_send.
Qed.

(** ** Running the next callable *)

Lemma send_eq m s :
  send m s = (Normal tt, {| self := self s; world := push_outbox [m] (world s) |}).
Proof. reflexivity. Qed.

Lemma wrapped_send_exists labels m s :
  counters_exist (self s) →
  wrapped_send labels m s =
    (Normal tt, {| self := on_send labels (self s) m;
                   world := push_outbox [m] (world s) |}).
Proof.
  intros Hex. unfold wrapped_send, on_send, bind at 1.
  case_decide; [|done].
  unfold bind at 1, get_self at 1.
  rewrite status_code_label_total. unfold bind at 1.
  rewrite inc_exists by done. rewrite inc_exists; [done|].
  by apply counters_exist_inc_pure.
Qed.

Lemma run_send p s :
  run send p s =
    (result_of (outcome p),
     {| self := self s; world := push_outbox (emitted p) (world s) |}).
Proof.
  revert s. induction p as [|e|m k IH]; intros s; simpl.
  - by rewrite push_outbox_nil, state_eta.
  - by rewrite push_outbox_nil, state_eta.
  - unfold bind. rewrite send_eq, IH. simpl.
    by rewrite push_outbox_app.
Qed.

Lemma run_wrapped_send labels p s :
  counters_exist (self s) →
  run (wrapped_send labels) p s =
    (result_of (outcome p),
     {| self := foldl (on_send labels) (self s) (emitted p);
        world := push_outbox (emitted p) (world s) |}).
Proof.
  revert s. induction p as [|e|m k IH]; intros s Hex; simpl.
  - by rewrite push_outbox_nil, state_eta.
  - by rewrite push_outbox_nil, state_eta.
  - unfold bind. rewrite wrapped_send_exists by done.
    rewrite IH by (by apply counters_exist_on_send). simpl.
    by rewrite push_outbox_app.
Qed.

(** What the interception has counted once the callable is done. *)
Lemma incs_on_sends labels ms mw a :
  counters_exist mw →
  incs a (foldl (on_send labels) mw ms) =
    incs a mw ++
    match a with
    | responses_counter_attr => (λ _, labels) <$> starts ms
    | status_codes_counter_attr =>
        (λ st, with_status_code (bucket (group_status_codes mw) st) labels) <$> starts ms
    | _ => []
    end.
Proof.
  revert mw. induction ms as [|m ms IH]; intros mw Hex; simpl.
  - destruct a; by rewrite app_nil_r.
  - rewrite IH by (by apply counters_exist_on_send).
    destruct (same_settings_on_send labels mw m) as (_&_&_&_&->&_).
    unfold on_send, starts. rewrite filter_cons.
    case_decide as Hm; simpl.
    + rewrite !incs_inc_pure by (try apply counters_exist_inc_pure; done).
      destruct a; simpl; repeat case_decide; try done;
        by rewrite <- ?app_assoc.
    + done.
Qed.

(** ** The metric-creation guard *)

(** [create_metrics] never touches the invocation log or the outbound
    channel.  When it returns, the instance carries four fresh counters and
    the flag; when a registration is refused, the flag is as before and
    each counter attribute is either as before or a fresh counter. *)
Lemma create_metrics_inv s r s' :
  create_metrics s = (r, s') →
  invocations (world s') = invocations (world s) ∧
  outbox (world s') = outbox (world s) ∧
  match r with
  | Normal _ => self s' = with_metrics (self s)
  | Raises _ =>
      same_settings (self s) (self s') ∧
      ∀ a, getattr a (self s') = getattr a (self s) ∨ incs a (self s') = []
  end.
Proof.
  unfold create_metrics, bind, get_self, Counter_new, modify_self.
  destruct s as [mw w]; simpl.
  repeat (match goal with
          | |- context [register ?d ?r] => destruct (register d r); simpl
          end);
    intros [= <- <-]; simpl; (split; [done|]); (split; [done|]);
    try done;
    (split; [by repeat split|]);
    intros []; simpl; auto.
Qed.

Lemma ensure_metrics_created s :
  metrics_created (self s) = true → ensure_metrics s = (Normal tt, s).
Proof. intros Hc. unfold ensure_metrics, bind, get_self. by rewrite Hc. Qed.

Lemma ensure_metrics_not_created s :
  metrics_created (self s) = false → ensure_metrics s = create_metrics s.
Proof. intros Hc. unfold ensure_metrics, bind, get_self. by rewrite Hc. Qed.

Lemma counters_exist_with_metrics mw : counters_exist (with_metrics mw).
Proof. intros []; simpl; eauto. Qed.

(** After the guard has let the call through, the counters exist. *)
Lemma ensure_metrics_ok s s1 :
  wf (self s) → ensure_metrics s = (Normal tt, s1) →
  counters_exist (self s1) ∧ metrics_created (self s1) = true ∧
  (∀ a, incs a (self s1) = incs a (self s)) ∧
  self s1 = (if metrics_created (self s) then self s else with_metrics (self s)) ∧
  invocations (world s1) = invocations (world s) ∧
  outbox (world s1) = outbox (world s).
Proof.
  intros Hwf. unfold wf in Hwf.
  destruct (metrics_created (self s)) eqn:Hc.
  - rewrite ensure_metrics_created by done. intros [= <-]. by rewrite Hc.
  - rewrite ensure_metrics_not_created by done. intros Hcm.
    apply create_metrics_inv in Hcm as (Hi & Ho & ->).
    split; [apply counters_exist_with_metrics|]. split; [done|].
    split; [|done]. intros a. rewrite Hwf. by destruct a.
Qed.

(** ** Handle capture *)

Lemma capture_app_eq scope s :
  capture_app scope s =
    (Normal tt, {| self := capture scope (self s); world := world s |}).
Proof.
  unfold capture_app, capture, bind, get_self.
  destruct (starlette_app (self s)); [by rewrite state_eta|].
  case_decide; [done | by rewrite state_eta].
Qed.

Lemma getattr_capture a scope mw : getattr a (capture scope mw) = getattr a mw.
Proof. unfold capture. destruct (starlette_app mw); [done|]. case_decide; by destruct a. Qed.

Lemma counters_exist_capture scope mw :
  counters_exist mw → counters_exist (capture scope mw).
Proof. intros Hex a. rewrite getattr_capture. apply Hex. Qed.

Lemma incs_capture a scope mw : incs a (capture scope mw) = incs a mw.
Proof. unfold incs. by rewrite getattr_capture. Qed.

(** The call, split at the guard. *)
Lemma call_split scope receive s :
  __call__ scope receive s =
    match ensure_metrics s with
    | (Normal _, s1) =>
        dispatch scope receive
          {| self := capture scope (self s1); world := world s1 |}
    | (Raises e, s1) => (Raises e, s1)
    end.
Proof.
  rewrite call_eq. unfold bind at 1.
  destruct (ensure_metrics s) as [[[]|e] s1]; [|done].
  unfold bind at 1. by rewrite capture_app_eq.
Qed.

(** ** Dispatch *)

Lemma await_original scope receive s :
  await_asgi_callable scope receive OriginalSend s =
    let p := asgi_callable (self s) scope receive in
    (result_of (outcome p),
     {| self := self s;
        world := push_outbox (emitted p)
                   (push_invocation
                      {| inv_scope := scope; inv_receive := receive;
                         inv_send := OriginalSend |} (world s)) |}).
Proof.
  unfold await_asgi_callable, bind, get_self, modify_world. simpl.
  by rewrite run_send.
Qed.

Lemma await_wrapped labels scope receive s :
  counters_exist (self s) →
  await_asgi_callable scope receive (WrappedSend labels) s =
    let p := asgi_callable (self s) scope receive in
    (result_of (outcome p),
     {| self := foldl (on_send labels) (self s) (emitted p);
        world := push_outbox (emitted p)
                   (push_invocation
                      {| inv_scope := scope; inv_receive := receive;
                         inv_send := WrappedSend labels |} (world s)) |}).
Proof.
  intros Hex. unfold await_asgi_callable, bind, get_self, modify_world. simpl.
  by rewrite run_wrapped_send.
Qed.

Lemma failure_accounting_exists labels s :
  counters_exist (self s) →
  failure_accounting labels s =
    (Normal tt, {| self := on_failure labels (self s); world := world s |}).
Proof.
  intros Hex. unfold failure_accounting, on_failure, bind at 1.
  rewrite inc_exists by done.
  unfold bind at 1, get_self at 1. simpl. unfold bind at 1.
  destruct (same_settings_inc_pure exceptions_counter_attr labels (self s))
    as (_&_&_&_&->&_).
  rewrite inc_exists by (by apply counters_exist_inc_pure). simpl.
  rewrite inc_exists by (by do 2 apply counters_exist_inc_pure). done.
Qed.

Lemma not_lifespan (scope : Scope App) :
  scope_type scope ∈ ["http"; "websocket"] → scope_type scope ≠ "lifespan".
Proof.
  intros Hin Heq. rewrite Heq in Hin.
  rewrite !elem_of_cons, elem_of_nil in Hin. by destruct Hin as [?|[?|?]].
Qed.

Lemma dispatch_lifespan scope receive s :
  scope_type scope = "lifespan" →
  dispatch scope receive s = await_asgi_callable scope receive OriginalSend s.
Proof. intros Ht. unfold dispatch. by rewrite decide_True. Qed.

Lemma dispatch_excluded scope receive s :
  scope_type scope ∈ ["http"; "websocket"] →
  get_full_or_template_path (self s) scope ∈ exclude_paths (self s) →
  dispatch scope receive s = await_asgi_callable scope receive OriginalSend s.
Proof.
  intros Ht Hex. unfold dispatch.
  rewrite decide_False by (by apply not_lifespan).
  rewrite decide_True by done.
  unfold bind, get_self. by rewrite decide_True.
Qed.

Lemma dispatch_tracked scope receive s :
  counters_exist (self s) →
  scope_type scope ∈ ["http"; "websocket"] →
  get_full_or_template_path (self s) scope ∉ exclude_paths (self s) →
  let labels := request_labels (scope_method scope)
                  (get_full_or_template_path (self s) scope) in
  let p := asgi_callable (self s) scope receive in
  dispatch scope receive s =
    (result_of (outcome p),
     {| self := tracked labels p (self s);
        world := push_outbox (emitted p)
                   (push_invocation
                      {| inv_scope := scope; inv_receive := receive;
                         inv_send := WrappedSend labels |} (world s)) |}).
Proof.
  intros Hex Ht Hnex. cbv zeta. unfold dispatch, request_labels.
  rewrite decide_False by (by apply not_lifespan).
  rewrite decide_True by done.
  unfold bind at 1, get_self at 1. rewrite decide_False by done.
  set (labels := <["path" := _]> _). clearbody labels.
  unfold bind at 1. rewrite inc_exists by done.
  unfold try_except_Exception_reraise.
  rewrite await_wrapped by (by apply counters_exist_inc_pure). simpl.
  destruct (same_settings_inc_pure requests_counter_attr labels (self s))
    as (->&_).
  unfold tracked. destruct (outcome _) as [e|]; simpl; [|done].
  destruct (isinstance_Exception e); [|done].
  rewrite failure_accounting_exists; [done|]. simpl.
  by apply counters_exist_on_sends, counters_exist_inc_pure.
Qed.

Lemma dispatch_other scope receive s :
  scope_type scope ∉ ["lifespan"; "http"; "websocket"] →
  dispatch scope receive s = (Normal tt, s).
Proof.
  intros [Hl Ht]%not_elem_of_cons. unfold dispatch.
  by rewrite !decide_False.
Qed.

Lemma incs_on_failure labels mw a :
  counters_exist mw →
  incs a (on_failure labels mw) =
    incs a mw ++
    match a with
    | requests_counter_attr => []
    | status_codes_counter_attr =>
        [with_status_code (if group_status_codes mw then "5xx" else "500") labels]
    | _ => [labels]
    end.
Proof.
  intros Hex. unfold on_failure.
  rewrite !incs_inc_pure by (repeat apply counters_exist_inc_pure; done).
  destruct a; repeat case_decide; try done. by rewrite app_nil_r.
Qed.

(** What a tracked request adds to each counter. *)
Lemma incs_tracked labels p mw a :
  counters_exist mw →
  incs a (tracked labels p mw) =
    incs a mw ++
    match a with
    | requests_counter_attr => [labels]
    | responses_counter_attr =>
        ((λ _, labels) <$> starts (emitted p)) ++
        (if fails p then [labels] else [])
    | exceptions_counter_attr => if fails p then [labels] else []
    | status_codes_counter_attr =>
        ((λ st, with_status_code (bucket (group_status_codes mw) st) labels)
           <$> starts (emitted p)) ++
        (if fails p
         then [with_status_code (if group_status_codes mw then "5xx" else "500") labels]
         else [])
    end.
Proof.
  intros Hex.
  pose proof (counters_exist_inc_pure requests_counter_attr labels mw Hex) as Hex1.
  pose proof (counters_exist_on_sends labels (emitted p) _ Hex1) as Hex2.
  pose proof (same_settings_inc_pure requests_counter_attr labels mw)
    as (_&_&_&_&Hg1&_).
  pose proof (same_settings_on_sends labels (emitted p)
                (inc_pure requests_counter_attr labels mw)) as (_&_&_&_&Hg2&_).
  assert (incs a (foldl (on_send labels)
                    (inc_pure requests_counter_attr labels mw) (emitted p)) =
          incs a mw ++
          match a with
          | requests_counter_attr => [labels]
          | responses_counter_attr => (λ _, labels) <$> starts (emitted p)
          | exceptions_counter_attr => []
          | status_codes_counter_attr =>
              (λ st, with_status_code (bucket (group_status_codes mw) st) labels)
                <$> starts (emitted p)
          end) as Hsends.
  { rewrite incs_on_sends by done. rewrite incs_inc_pure by done. rewrite Hg1.
    destruct a; case_decide; try done; by rewrite ?app_nil_r. }
  unfold tracked, fails.
  destruct (outcome p) as [e|]; [destruct (isinstance_Exception e)|].
  - rewrite incs_on_failure by done. rewrite Hsends, Hg2, Hg1.
    destruct a; by rewrite <- ?app_assoc, ?app_nil_r.
  - rewrite Hsends. destruct a; by rewrite ?app_nil_r.
  - rewrite Hsends. destruct a; by rewrite ?app_nil_r.
Qed.

(** The state the guard leaves behind agrees with the one it found on
    everything but the counters and the flag. *)
Lemma ensure_metrics_settings s s1 :
  wf (self s) → ensure_metrics s = (Normal tt, s1) →
  asgi_callable (self s1) = asgi_callable (self s) ∧
  starlette_app (self s1) = starlette_app (self s) ∧
  exclude_paths (self s1) = exclude_paths (self s) ∧
  use_template_urls (self s1) = use_template_urls (self s) ∧
  group_status_codes (self s1) = group_status_codes (self s).
Proof.
  intros Hwf Hen.
  destruct (ensure_metrics_ok _ _ Hwf Hen) as (_&_&_&->&_).
  by destruct (metrics_created (self s)).
Qed.

Lemma starlette_app_capture scope mw :
  starlette_app (capture scope mw) =
    match starlette_app mw with
    | Some a => Some a
    | None =>
        if decide (scope_type scope ∈ ["lifespan"; "http"; "websocket"])
        then scope_app scope else None
    end.
Proof.
  unfold capture. destruct (starlette_app mw) eqn:Ha; [done|].
  by case_decide.
Qed.

Lemma same_settings_capture scope mw :
  asgi_callable (capture scope mw) = asgi_callable mw ∧
  exclude_paths (capture scope mw) = exclude_paths mw ∧
  use_template_urls (capture scope mw) = use_template_urls mw ∧
  group_status_codes (capture scope mw) = group_status_codes mw ∧
  metrics_created (capture scope mw) = metrics_created mw.
Proof. unfold capture. destruct (starlette_app mw); [done|]. by case_decide. Qed.

Lemma get_full_or_template_path_ext mw mw' scope :
  use_template_urls mw' = use_template_urls mw →
  starlette_app mw' = starlette_app mw →
  get_full_or_template_path mw' scope = get_full_or_template_path mw scope.
Proof. intros Hu Ha. unfold get_full_or_template_path. by rewrite Hu, Ha. Qed.

(** ** A request event, once the guard has let it through *)

Lemma call_request scope receive s s1 :
  wf (self s) → ensure_metrics s = (Normal tt, s1) →
  scope_type scope ∈ ["http"; "websocket"] →
  let mw := capture scope (self s) in
  let p := asgi_callable (self s) scope receive in
  let labels := request_labels (scope_method scope)
                  (get_full_or_template_path mw scope) in
  __call__ scope receive s =
    (result_of (outcome p),
     if decide (get_full_or_template_path mw scope ∈ exclude_paths (self s)) then
       {| self := capture scope (self s1);
          world := push_outbox (emitted p)
                     (push_invocation
                        {| inv_scope := scope; inv_receive := receive;
                           inv_send := OriginalSend |} (world s1)) |}
     else
       {| self := tracked labels p (capture scope (self s1));
          world := push_outbox (emitted p)
                     (push_invocation
                        {| inv_scope := scope; inv_receive := receive;
                           inv_send := WrappedSend labels |} (world s1)) |}).
Proof.
  intros Hwf Hen Ht. cbv zeta.
  destruct (ensure_metrics_settings _ _ Hwf Hen) as (Hc & Ha & He & Hu & Hg).
  destruct (ensure_metrics_ok _ _ Hwf Hen) as (Hex & _).
  destruct (same_settings_capture scope (self s1)) as (Hc' & He' & Hu' & _).
  assert (get_full_or_template_path (capture scope (self s1)) scope =
          get_full_or_template_path (capture scope (self s)) scope) as Hp.
  { apply get_full_or_template_path_ext.
    - by rewrite !(proj1 (proj2 (proj2 (same_settings_capture scope _)))).
    - by rewrite !starlette_app_capture, Ha. }
  rewrite call_split, Hen.
  case_decide as Hin.
  - rewrite dispatch_excluded; simpl; [|done|by rewrite Hp, He', He].
    rewrite await_original. simpl. by rewrite Hc', Hc.
  - rewrite dispatch_tracked; simpl;
      [|by apply counters_exist_capture|done|by rewrite Hp, He', He].
    by rewrite Hp, Hc', Hc.
Qed.

Lemma ensure_metrics_normal s :
  (ensure_metrics s).1 = Normal tt → ensure_metrics s = (Normal tt, (ensure_metrics s).2).
Proof. destruct (ensure_metrics s) as [r s1]. simpl. by intros ->. Qed.

(** C1 (amended).  A request event ([http] or [websocket]) whose
    classified path is not excluded, and for which the metrics exist or
    have just been created, adds exactly one increment, labelled
    [{method, path}], to [requests_total].  It adds exactly one increment
    to [responses_total] and exactly one to [status_codes_total] when the
    next callable sends exactly one ["http.response.start"] and does not
    end with an [Exception], and when it raises an [Exception] without
    having sent one; it adds none when the callable sends no
    ["http.response.start"] and does not end with an [Exception] (a
    websocket session). *)
Theorem C1_request_counted_once scope receive s :
  wf (self s) →
  (ensure_metrics s).1 = Normal tt →
  scope_type scope ∈ ["http"; "websocket"] →
  let mw := capture scope (self s) in
  let labels := request_labels (scope_method scope)
                  (get_full_or_template_path mw scope) in
  let p := asgi_callable (self s) scope receive in
  let s' := (__call__ scope receive s).2 in
  get_full_or_template_path mw scope ∉ exclude_paths (self s) →
  incs requests_counter_attr (self s') =
    incs requests_counter_attr (self s) ++ [labels] ∧
  (∀ status, starts (emitted p) = [status] → fails p = false →
   incs responses_counter_attr (self s') =
     incs responses_counter_attr (self s) ++ [labels] ∧
   incs status_codes_counter_attr (self s') =
     incs status_codes_counter_attr (self s) ++
     [with_status_code (bucket (group_status_codes (self s)) status) labels]) ∧
  (starts (emitted p) = [] → fails p = true →
   incs responses_counter_attr (self s') =
     incs responses_counter_attr (self s) ++ [labels] ∧
   incs status_codes_counter_attr (self s') =
     incs status_codes_counter_attr (self s) ++
     [with_status_code (if group_status_codes (self s) then "5xx" else "500") labels]) ∧
  (starts (emitted p) = [] → fails p = false →
   incs responses_counter_attr (self s') = incs responses_counter_attr (self s) ∧
   incs status_codes_counter_attr (self s') =
     incs status_codes_counter_attr (self s)).
Proof.
  intros Hwf Hen%ensure_metrics_normal Ht mw labels p s' Hnex.
  destruct (ensure_metrics_ok _ _ Hwf Hen) as (Hex & _ & Hincs & _).
  destruct (ensure_metrics_settings _ _ Hwf Hen) as (_ & _ & _ & _ & Hg).
  destruct (same_settings_capture scope (ensure_metrics s).2.(self))
    as (_ & _ & _ & Hg' & _).
  subst s'. rewrite (call_request _ _ _ _ Hwf Hen Ht). cbv zeta.
  rewrite decide_False by done. simpl. fold mw labels p.
  pose proof (counters_exist_capture scope _ Hex) as Hex'.
  rewrite !incs_tracked by done. rewrite !incs_capture, !Hincs, Hg', Hg.
  split; [done|]. split_and!.
  - by intros status -> ->.
  - by intros -> ->.
  - intros -> ->. simpl. by rewrite !app_nil_r.
Qed.

(** C2.  When the next callable of a non-excluded request raises an
    [Exception], the call raises that same exception, after having
    incremented [exceptions_total] with [{method, path}],
    [status_codes_total] with the status code ["5xx"] (grouping) or
    ["500"], and [responses_total] with [{method, path}]; these follow the
    increments of the response starts the callable had sent, and every
    message it sent has reached the caller's [send]. *)
Theorem C2_exception_accounting scope receive s e :
  wf (self s) →
  (ensure_metrics s).1 = Normal tt →
  scope_type scope ∈ ["http"; "websocket"] →
  let mw := capture scope (self s) in
  let labels := request_labels (scope_method scope)
                  (get_full_or_template_path mw scope) in
  let p := asgi_callable (self s) scope receive in
  let r := (__call__ scope receive s).1 in
  let s' := (__call__ scope receive s).2 in
  get_full_or_template_path mw scope ∉ exclude_paths (self s) →
  outcome p = Some e →
  isinstance_Exception e = true →
  r = Raises (Foreign e) ∧
  incs exceptions_counter_attr (self s') =
    incs exceptions_counter_attr (self s) ++ [labels] ∧
  incs status_codes_counter_attr (self s') =
    incs status_codes_counter_attr (self s) ++
    ((λ st, with_status_code (bucket (group_status_codes (self s)) st) labels)
       <$> starts (emitted p)) ++
    [with_status_code (if group_status_codes (self s) then "5xx" else "500") labels] ∧
  incs responses_counter_attr (self s') =
    incs responses_counter_attr (self s) ++
    ((λ _, labels) <$> starts (emitted p)) ++ [labels] ∧
  outbox (world s') = outbox (world s) ++ emitted p.
Proof.
  intros Hwf Hen%ensure_metrics_normal Ht mw labels p r s' Hnex Hout He.
  destruct (ensure_metrics_ok _ _ Hwf Hen) as (Hex & _ & Hincs & _ & _ & Ho).
  destruct (ensure_metrics_settings _ _ Hwf Hen) as (_ & _ & _ & _ & Hg).
  destruct (same_settings_capture scope (ensure_metrics s).2.(self))
    as (_ & _ & _ & Hg' & _).
  subst r s'. rewrite (call_request _ _ _ _ Hwf Hen Ht). cbv zeta.
  rewrite decide_False by done. simpl. fold mw labels p.
  pose proof (counters_exist_capture scope _ Hex) as Hex'.
  assert (fails p = true) as Hf by (unfold fails; by rewrite Hout).
  rewrite !incs_tracked by done. rewrite !incs_capture, !Hincs, Hf, Hg', Hg, Hout, Ho.
  done.
Qed.

(** C4.  When the classified path of a request event is a member of
    [exclude_paths] (an exact string match), no counter is incremented and
    the next callable is called once, with the scope, [receive] and [send]
    the middleware was given: what it sends reaches the caller and its
    outcome is the outcome of the call. *)
Theorem C4_excluded_path scope receive s :
  wf (self s) →
  (ensure_metrics s).1 = Normal tt →
  scope_type scope ∈ ["http"; "websocket"] →
  let mw := capture scope (self s) in
  let p := asgi_callable (self s) scope receive in
  let r := (__call__ scope receive s).1 in
  let s' := (__call__ scope receive s).2 in
  get_full_or_template_path mw scope ∈ exclude_paths (self s) →
  (∀ a, incs a (self s') = incs a (self s)) ∧
  invocations (world s') =
    invocations (world s) ++
    [{| inv_scope := scope; inv_receive := receive; inv_send := OriginalSend |}] ∧
  outbox (world s') = outbox (world s) ++ emitted p ∧
  r = result_of (outcome p).
Proof.
  intros Hwf Hen%ensure_metrics_normal Ht mw p r s' Hin.
  destruct (ensure_metrics_ok _ _ Hwf Hen) as (Hex & _ & Hincs & _ & Hi & Ho).
  subst r s'. rewrite (call_request _ _ _ _ Hwf Hen Ht). cbv zeta.
  rewrite decide_True by done. simpl. rewrite Hi, Ho.
  repeat split; try done.
  intros a. by rewrite incs_capture.
Qed.

(** ** Any event *)

Lemma call_raises scope receive s e s1 :
  ensure_metrics s = (Raises e, s1) → __call__ scope receive s = (Raises e, s1).
Proof. intros Hen. by rewrite call_split, Hen. Qed.

Lemma capture_other scope mw :
  scope_type scope ∉ ["lifespan"; "http"; "websocket"] → capture scope mw = mw.
Proof.
  intros Ht. unfold capture. destruct (starlette_app mw); [done|].
  by rewrite decide_False.
Qed.

Lemma call_other scope receive s :
  scope_type scope ∉ ["lifespan"; "http"; "websocket"] →
  __call__ scope receive s = ensure_metrics s.
Proof.
  intros Ht. rewrite call_split.
  destruct (ensure_metrics s) as [[[]|e] s1]; [|done].
  rewrite dispatch_other by done. by rewrite capture_other, state_eta.
Qed.

Lemma call_lifespan scope receive s s1 :
  ensure_metrics s = (Normal tt, s1) →
  scope_type scope = "lifespan" →
  let p := asgi_callable (self s1) scope receive in
  __call__ scope receive s =
    (result_of (outcome p),
     {| self := capture scope (self s1);
        world := push_outbox (emitted p)
                   (push_invocation
                      {| inv_scope := scope; inv_receive := receive;
                         inv_send := OriginalSend |} (world s1)) |}).
Proof.
  intros Hen Ht. cbv zeta. rewrite call_split, Hen.
  rewrite dispatch_lifespan by done. rewrite await_original. simpl.
  by rewrite (proj1 (same_settings_capture scope (self s1))).
Qed.

Lemma scope_type_cases (scope : Scope App) :
  scope_type scope = "lifespan" ∨
  scope_type scope ∈ ["http"; "websocket"] ∨
  scope_type scope ∉ ["lifespan"; "http"; "websocket"].
Proof.
  destruct (decide (scope_type scope = "lifespan")) as [|Hl]; [by left|].
  destruct (decide (scope_type scope ∈ ["http"; "websocket"])) as [|Hr];
    [by right; left|].
  right; right. by apply not_elem_of_cons.
Qed.

Lemma same_settings_tracked labels p mw : same_settings mw (tracked labels p mw).
Proof.
  unfold tracked.
  assert (same_settings mw
            (foldl (on_send labels) (inc_pure requests_counter_attr labels mw)
               (emitted p))) as Hs.
  { eapply same_settings_trans;
      [apply same_settings_inc_pure | apply same_settings_on_sends]. }
  destruct (outcome p) as [e|]; [destruct (isinstance_Exception e)|]; try done.
  eapply same_settings_trans; [done | apply same_settings_on_failure].
Qed.

Lemma counters_exist_tracked labels p mw :
  counters_exist mw → counters_exist (tracked labels p mw).
Proof.
  intros Hex. unfold tracked.
  assert (counters_exist
            (foldl (on_send labels) (inc_pure requests_counter_attr labels mw)
               (emitted p))) as Hs
    by (by apply counters_exist_on_sends, counters_exist_inc_pure).
  destruct (outcome p) as [e|]; [destruct (isinstance_Exception e)|]; try done.
  unfold on_failure. by repeat apply counters_exist_inc_pure.
Qed.

(** What every call does to the instance and to the registries, whatever
    the event: the invariant is kept, a captured handle stays, the flag is
    set once the guard has let the call through, and the registries are
    those the guard left. *)
Lemma call_inv scope receive s :
  wf (self s) →
  let s' := (__call__ scope receive s).2 in
  wf (self s') ∧
  registries (world s') = registries (world (ensure_metrics s).2) ∧
  starlette_app (self s') =
    match (ensure_metrics s).1 with
    | Normal _ => starlette_app (capture scope (self s))
    | Raises _ => starlette_app (self s)
    end ∧
  ((ensure_metrics s).1 = Normal tt → metrics_created (self s') = true).
Proof.
  intros Hwf. cbv zeta.
  destruct (ensure_metrics s) as [[[]|e] s1] eqn:Hen.
  - destruct (ensure_metrics_ok _ _ Hwf Hen) as (Hex & Hc & _).
    destruct (ensure_metrics_settings _ _ Hwf Hen) as (_ & Ha & _).
    pose proof (counters_exist_capture scope _ Hex) as Hex'.
    destruct (same_settings_capture scope (self s1)) as (_&_&_&_&Hc').
    assert (starlette_app (capture scope (self s1)) =
            starlette_app (capture scope (self s))) as Ha'
      by (by rewrite !starlette_app_capture, Ha).
    assert (wf (capture scope (self s1))) as Hwf1
      by (unfold wf; by rewrite Hc', Hc).
    destruct (scope_type_cases scope) as [Ht|[Ht|Ht]].
    + rewrite (call_lifespan _ _ _ _ Hen Ht). simpl.
      by rewrite Hc', Hc.
    + rewrite (call_request _ _ _ _ Hwf Hen Ht). cbv zeta. simpl.
      case_decide; simpl; [by rewrite Hc', Hc|].
      destruct (same_settings_tracked
                  (request_labels (scope_method scope)
                     (get_full_or_template_path (capture scope (self s)) scope))
                  (asgi_callable (self s) scope receive)
                  (capture scope (self s1))) as (_&Hat&_&_&_&_&_&Hct).
      rewrite Hat, Hct, Hc', Hc. repeat split; try done.
      unfold wf. rewrite Hct, Hc', Hc. by apply counters_exist_tracked.
    + rewrite call_other, Hen by done. simpl.
      rewrite capture_other in Ha' by done.
      repeat split; try done. unfold wf. by rewrite Hc.
  - rewrite (call_raises _ _ _ _ _ Hen). simpl.
    unfold ensure_metrics, bind, get_self in Hen.
    unfold wf in Hwf.
    destruct (metrics_created (self s)) eqn:Hc; [done|]. simpl in Hen.
    apply create_metrics_inv in Hen as (_ & _ & Hs & Hattr).
    destruct Hs as (_ & Ha & _ & _ & _ & _ & _ & Hc1).
    repeat split; try done.
    unfold wf. rewrite Hc1, Hc. intros a.
    destruct (Hattr a) as [Heq|Hnil]; [|done].
    unfold incs. rewrite Heq. apply Hwf.
Qed.

(** ** Path classification *)

Lemma route_loop_none rs scope :
  (∀ r, r ∈ rs → (matches r scope).1 ≠ FULL) → route_loop rs scope = None.
Proof.
  induction rs as [|r rs IH]; intros Hno; simpl; [done|].
  pose proof (Hno r (list_elem_of_here _ _)) as Hr.
  destruct (matches r scope) as [m child]; simpl in Hr.
  destruct m; simpl; try done; apply IH; intros r' Hr'; apply Hno;
    by apply list_elem_of_further.
Qed.

Lemma route_loop_first before route after scope :
  (∀ r, r ∈ before → (matches r scope).1 ≠ FULL) →
  (matches route scope).1 = FULL →
  route_loop (before ++ route :: after) scope = Some (path route).
Proof.
  induction before as [|r before IH]; intros Hno Hfull; simpl.
  - destruct (matches route scope) as [m child]; simpl in Hfull. by subst m.
  - pose proof (Hno r (list_elem_of_here _ _)) as Hr.
    destruct (matches r scope) as [m child]; simpl in Hr.
    destruct m; simpl; try done; apply IH; try done;
      intros r' Hr'; apply Hno; by apply list_elem_of_further.
Qed.

(** C5.  The path label is [root_path + path], unless template URLs are
    enabled and an application handle has been captured: then the first
    registered route whose match against the scope is [Match.FULL] (value
    2) gives its template path.  A route that matches only partially is
    passed over, and without a full match the label is the literal path. *)
Theorem C5_path_classification mw scope :
  let full_path :=
    default "" (scope_root_path scope) +:+ default "" (scope_path scope) in
  (use_template_urls mw = false →
   get_full_or_template_path mw scope = full_path) ∧
  (starlette_app mw = None →
   get_full_or_template_path mw scope = full_path) ∧
  (∀ app, use_template_urls mw = true → starlette_app mw = Some app →
     (∀ before route after,
        routes app = before ++ route :: after →
        (∀ r, r ∈ before → (matches r scope).1 ≠ FULL) →
        (matches route scope).1 = FULL →
        Match_value (matches route scope).1 = 2%Z ∧
        get_full_or_template_path mw scope = path route) ∧
     ((∀ r, r ∈ routes app → (matches r scope).1 = PARTIAL ∨ (matches r scope).1 = NONE) →
      get_full_or_template_path mw scope = full_path)).
Proof.
  cbv zeta. unfold get_full_or_template_path. split; [|split].
  - by intros ->.
  - intros ->. by destruct (use_template_urls mw).
  - intros app -> ->. split.
    + intros before route after -> Hno Hfull.
      split; [by rewrite Hfull|]. by rewrite route_loop_first.
    + intros Hno. rewrite route_loop_none; [done|].
      intros r Hr. by destruct (Hno r Hr) as [-> | ->].
Qed.

(** C7.  Constructing the middleware with a [registry] that is neither
    [None] nor a [Registry] raises at once, with nothing else done and no
    instance to call later; with [None] or a [Registry] the construction
    goes through. *)
Theorem C7_invalid_registry app registry_arg exclude templates group cl w :
  match registry_arg with
  | RegOther type_repr =>
      __init__ app registry_arg exclude templates group cl w =
        (Raises (Exception ("registry must be a Registry, got: " +:+ type_repr)), w)
  | RegNone | RegRegistry _ =>
      ∃ mw, __init__ app registry_arg exclude templates group cl w = (Normal mw, w)
  end.
Proof. destruct registry_arg; simpl; eauto. Qed.

(** ** Sequences of events *)

Lemma serve_inv events s :
  wf (self s) →
  wf (self (serve events s)) ∧
  (∀ a, starlette_app (self s) = Some a →
        starlette_app (self (serve events s)) = Some a) ∧
  (metrics_created (self s) = true →
   metrics_created (self (serve events s)) = true ∧
   registries (world (serve events s)) = registries (world s)).
Proof.
  revert s. induction events as [|[scope receive] rest IH]; intros s Hwf; simpl.
  - done.
  - destruct (call_inv scope receive s Hwf) as (Hwf' & Hreg & Happ & Hc).
    destruct (IH _ Hwf') as (IHwf & IHapp & IHc).
    split; [done|]. split.
    + intros a Ha. apply IHapp. rewrite Happ.
      destruct (ensure_metrics s).1; [|done].
      by rewrite starlette_app_capture, Ha.
    + intros Hcr. rewrite ensure_metrics_created in Hreg, Hc by done.
      destruct (IHc (Hc eq_refl)) as (-> & ->). by rewrite Hreg.
Qed.

Lemma init_wf app registry_arg exclude templates group cl w mw w' :
  __init__ app registry_arg exclude templates group cl w = (Normal mw, w') →
  w' = w ∧ wf mw ∧ metrics_created mw = false ∧ starlette_app mw = None.
Proof.
  unfold __init__. destruct registry_arg; intros [= <- <-]; repeat split;
    by intros [].
Qed.

(** C6.  The constructor registers nothing: it leaves the registries as
    they are and the flag [metrics_created] unset, so that constructing the
    middleware again and again over the same registry never raises.  The
    counters are registered by the first call, whatever the event, and only
    by a call that finds the flag unset: such a call does to the registries
    what [create_metrics] does and, when that succeeds, sets the flag;
    every later call, and every sequence of later calls, leaves the
    registries alone. *)
Theorem C6_lazy_metric_creation :
  (∀ app (r : option nat) exclude templates group cl w,
     let registry_arg := from_option RegRegistry RegNone r in
     ∃ mw, __init__ app registry_arg exclude templates group cl w = (Normal mw, w) ∧
           metrics_created mw = false ∧ wf mw ∧
           ∀ app2 exclude2 templates2 group2 cl2,
             ∃ mw2, __init__ app2 registry_arg exclude2 templates2 group2 cl2 w
                    = (Normal mw2, w) ∧ metrics_created mw2 = false) ∧
  (∀ scope receive s,
     wf (self s) → metrics_created (self s) = false →
     registries (world (__call__ scope receive s).2) =
       registries (world (create_metrics s).2) ∧
     ((create_metrics s).1 = Normal tt →
      metrics_created (self (__call__ scope receive s).2) = true)) ∧
  (∀ scope receive s,
     wf (self s) → metrics_created (self s) = true →
     registries (world (__call__ scope receive s).2) = registries (world s) ∧
     metrics_created (self (__call__ scope receive s).2) = true) ∧
  (∀ events s,
     wf (self s) → metrics_created (self s) = true →
     registries (world (serve events s)) = registries (world s)).
Proof.
  split; [|split; [|split]].
  - intros app r exclude templates group cl w registry_arg.
    destruct r as [r|]; simpl in registry_arg; subst registry_arg;
      (eexists; split; [reflexivity|]; split; [done|]; split; [by intros []|]);
      intros; eexists; split; reflexivity.
  - intros scope receive s Hwf Hc.
    destruct (call_inv scope receive s Hwf) as (_ & Hreg & _ & Hcr).
    rewrite ensure_metrics_not_created in Hreg, Hcr by done. auto.
  - intros scope receive s Hwf Hc.
    destruct (call_inv scope receive s Hwf) as (_ & Hreg & _ & Hcr).
    rewrite ensure_metrics_created in Hreg, Hcr by done. auto.
  - intros events s Hwf Hc. by apply serve_inv.
Qed.

Lemma serve_no_app events s :
  wf (self s) → starlette_app (self s) = None →
  Forall (λ ev, scope_app ev.1 = None) events →
  starlette_app (self (serve events s)) = None.
Proof.
  revert s. induction events as [|[scope receive] rest IH]; intros s Hwf Ha Hev;
    simpl; [done|].
  apply Forall_cons_1 in Hev as [Hscope Hrest]. simpl in Hscope.
  destruct (call_inv scope receive s Hwf) as (Hwf' & _ & Happ & _).
  apply IH; [done| |done]. rewrite Happ.
  destruct (ensure_metrics s).1; [|done].
  rewrite starlette_app_capture, Ha, Hscope. by case_decide.
Qed.

(** Every state reached from a newly built instance satisfies the
    invariant. *)
Lemma served_wf app registry_arg exclude templates group cl w mw w' events :
  __init__ app registry_arg exclude templates group cl w = (Normal mw, w') →
  wf (self (serve events {| self := mw; world := w' |})).
Proof.
  intros Hinit. apply serve_inv. simpl.
  by destruct (init_wf _ _ _ _ _ _ _ _ _ Hinit) as (_ & ? & _).
Qed.

Lemma path_literal_without_handle mw scope :
  starlette_app mw = None →
  get_full_or_template_path mw scope =
    default "" (scope_root_path scope) +:+ default "" (scope_path scope).
Proof.
  intros Ha. unfold get_full_or_template_path. rewrite Ha.
  by destruct (use_template_urls mw).
Qed.

(** C8.  A call takes the application reference from the scope only while
    no handle is held, and then from a [lifespan], [http] or [websocket]
    event alike; a handle that is held survives every later event and
    every sequence of them.  While none is held the path label is the
    literal path, and none is ever held if no event carries a reference. *)
Theorem C8_handle_capture scope receive s :
  wf (self s) →
  let s' := (__call__ scope receive s).2 in
  (∀ a, starlette_app (self s) = Some a →
     starlette_app (self s') = Some a ∧
     ∀ events, starlette_app (self (serve events s')) = Some a) ∧
  (starlette_app (self s) = None →
   (ensure_metrics s).1 = Normal tt →
   starlette_app (self s') =
     if decide (scope_type scope ∈ ["lifespan"; "http"; "websocket"])
     then scope_app scope else None) ∧
  (starlette_app (self s) = None →
   (∀ scope', get_full_or_template_path (self s) scope' =
      default "" (scope_root_path scope') +:+ default "" (scope_path scope')) ∧
   (∀ events, Forall (λ ev, scope_app ev.1 = None) events →
      starlette_app (self (serve events s)) = None)).
Proof.
  intros Hwf s'.
  destruct (call_inv scope receive s Hwf) as (Hwf' & _ & Happ & _).
  fold s' in Hwf', Happ. split; [|split].
  - intros a Ha.
    assert (starlette_app (self s') = Some a) as Ha'.
    { rewrite Happ. destruct (ensure_metrics s).1; [|done].
      by rewrite starlette_app_capture, Ha. }
    split; [done|]. intros events. by apply serve_inv.
  - intros Ha Hen. rewrite Happ, Hen. by rewrite starlette_app_capture, Ha.
  - intros Ha. split.
    + intros scope'. by apply path_literal_without_handle.
    + intros events Hev. by apply serve_no_app.
Qed.

(** C10.  On an event whose type is none of [lifespan], [http] and
    [websocket] the call does what the metric-creation guard does and
    nothing more: the next callable is not called, nothing is sent, no
    counter is incremented and no handle is captured; the call returns
    unless the guard raised, and when the metrics already exist it returns
    with nothing changed at all. *)
Theorem C10_other_event_dropped scope receive s :
  wf (self s) →
  scope_type scope ∉ ["lifespan"; "http"; "websocket"] →
  let r := (__call__ scope receive s).1 in
  let s' := (__call__ scope receive s).2 in
  invocations (world s') = invocations (world s) ∧
  outbox (world s') = outbox (world s) ∧
  (∀ a, incs a (self s') = incs a (self s)) ∧
  starlette_app (self s') = starlette_app (self s) ∧
  __call__ scope receive s = ensure_metrics s ∧
  ((ensure_metrics s).1 = Normal tt → r = Normal tt) ∧
  (metrics_created (self s) = true → r = Normal tt ∧ s' = s).
Proof.
  intros Hwf Ht r s'. subst r s'. rewrite call_other by done.
  destruct (ensure_metrics s) as [[[]|e] s1] eqn:Hen; simpl.
  - destruct (ensure_metrics_ok _ _ Hwf Hen) as (_ & _ & Hincs & _ & Hi & Ho).
    destruct (ensure_metrics_settings _ _ Hwf Hen) as (_ & Ha & _).
    split_and!; try done.
    intros Hc. rewrite ensure_metrics_created in Hen by done.
    split; congruence.
  - unfold ensure_metrics, bind, get_self in Hen. unfold wf in Hwf.
    destruct (metrics_created (self s)) eqn:Hc; [done|]. simpl in Hen.
    apply create_metrics_inv in Hen as (Hi & Ho & Hs & Hattr).
    destruct Hs as (_ & Ha & _).
    split_and!; try done.
    intros a. rewrite Hwf. destruct (Hattr a) as [Heq|Hnil]; [|done].
    unfold incs. rewrite Heq. apply Hwf.
Qed.

(** ** Status codes *)

(** [str] writes a number in decimal: reading the string back gives the
    number. *)
Lemma str_reads_back code :
  Z.of_int <$> NilEmpty.int_of_string (str code) = Some code.
Proof. unfold str. rewrite NilEmpty.isi. simpl. by rewrite DecimalZ.of_to. Qed.

(** The grouped label of a positive status: its leading decimal digit [d],
    followed by ["xx"]. *)
Lemma grouped_label_leading_digit (code : Z) :
  (0 < code)%Z →
  ∃ d n : N,
    (1 ≤ d ≤ 9)%N ∧
    (Z.of_N d * 10 ^ Z.of_N n ≤ code < (Z.of_N d + 1) * 10 ^ Z.of_N n)%Z ∧
    status_code_label true code = Normal (String (digit_char d) "xx").
Proof.
  intros Hpos. destruct code as [|p|p]; try lia.
  exists (Unsigned.hd (Pos.to_uint p)), (Unsigned.usize (Unsigned.tl (Pos.to_uint p))).
  pose proof (to_uint_hd_bounds p) as [Hlo Hhi].
  pose proof (to_uint_hd_nonzero p) as Hnz.
  pose proof (hd_le_9 (Pos.to_uint p)) as H9.
  split; [lia|]. split.
  - rewrite <- (N2Z.inj_pow 10), <- N2Z.inj_mul.
    change 1%Z with (Z.of_N 1). rewrite <- N2Z.inj_add, <- N2Z.inj_mul.
    change (Z.pos p) with (Z.of_N (N.pos p)). lia.
  - unfold status_code_label, str. simpl.
    by rewrite string_of_uint_hd by apply Unsigned.to_uint_nonnil.
Qed.

Lemma three_digits (code : Z) (d n : N) :
  (100 ≤ code ≤ 999)%Z → (1 ≤ d ≤ 9)%N →
  (Z.of_N d * 10 ^ Z.of_N n ≤ code < (Z.of_N d + 1) * 10 ^ Z.of_N n)%Z →
  Z.of_N d = (code / 100)%Z.
Proof.
  intros Hc Hd [Hlo Hhi].
  assert (n = 2%N) as ->.
  { destruct (N.lt_trichotomy n 2) as [Hlt|[->|Hgt]]; [|done|].
    - assert (10 ^ Z.of_N n ≤ 10 ^ 1)%Z by (apply Z.pow_le_mono_r; lia). nia.
    - assert (10 ^ 3 ≤ 10 ^ Z.of_N n)%Z by (apply Z.pow_le_mono_r; lia). nia. }
  change (10 ^ Z.of_N 2)%Z with 100%Z in *.
  apply Z.div_unique with (r := (code - Z.of_N d * 100)%Z); lia.
Qed.

(** C3.  The [status_code] label of a response.  Without grouping it is
    the decimal writing of the status (which reads back as the status).
    With grouping it is the first digit of the status followed by ["xx"]:
    the digit [d] with [d * 10^n <= status < (d+1) * 10^n], that is
    [status / 100] for a three-digit status.  This is the label under which
    [wrapped_send] counts an ["http.response.start"] in
    [status_codes_total]. *)
Theorem C3_status_code_bucketing (status : Z) :
  (status_code_label false status = Normal (str status) ∧
   Z.of_int <$> NilEmpty.int_of_string (str status) = Some status) ∧
  ((0 < status)%Z →
   ∃ d n : N,
     (1 ≤ d ≤ 9)%N ∧
     (Z.of_N d * 10 ^ Z.of_N n ≤ status < (Z.of_N d + 1) * 10 ^ Z.of_N n)%Z ∧
     status_code_label true status = Normal (String (digit_char d) "xx")) ∧
  ((100 ≤ status ≤ 999)%Z →
   status_code_label true status =
     Normal (String (digit_char (Z.to_N (status / 100))) "xx")) ∧
  (∀ labels m s,
     counters_exist (self s) →
     msg_type m = "http.response.start" → msg_status m = status →
     ∃ label,
       status_code_label (group_status_codes (self s)) status = Normal label ∧
       incs status_codes_counter_attr (self (wrapped_send labels m s).2) =
         incs status_codes_counter_attr (self s) ++ [with_status_code label labels]).
Proof.
  split; [|split; [|split]].
  - split; [done | apply str_reads_back].
  - apply grouped_label_leading_digit.
  - intros Hc.
    destruct (grouped_label_leading_digit status) as (d & n & Hd & Hb & ->); [lia|].
    rewrite <- (three_digits status d n) by done. by rewrite N2Z.id.
  - intros labels m s Hex Hty <-.
    exists (bucket (group_status_codes (self s)) (msg_status m)).
    split; [apply status_code_label_total|].
    rewrite wrapped_send_exists by done. simpl.
    unfold on_send. rewrite decide_True by done.
    rewrite !incs_inc_pure by (try apply counters_exist_inc_pure; done).
    by repeat case_decide.
Qed.

(** ** A call running alone is [__call__] *)

Lemma run_task_finished fuel res s :
  run_task fuel (Finished res) s = (Finished res, s).
Proof. induction fuel as [|fuel IH]; [done|]. simpl. apply IH. Qed.

Lemma run_task_finish fuel c :
  (let '(t', s') := finish c in run_task fuel t' s') = finish c.
Proof. destruct c as [res s]. unfold finish. simpl. apply run_task_finished. Qed.

Lemma body_send r m k s :
  body r (PSend m k) s =
    match send_of r m s with
    | (Normal _, s') => body r k s'
    | (Raises e, s') => leave r e s'
    end.
Proof.
  destruct r as [|labels]; simpl.
  - done.
  - unfold try_except_Exception_reraise, bind, raise.
    by destruct (wrapped_send labels m s) as [[[]|e] s'].
Qed.

Lemma run_task_awaiting r p s fuel :
  length (emitted p) < fuel →
  run_task fuel (Awaiting r p) s = finish (body r p s).
Proof.
  revert s fuel. induction p as [|e|m k IH]; intros s fuel Hfuel;
    (destruct fuel as [|fuel]; [simpl in Hfuel; lia|]);
    cbn [run_task step].
  - rewrite run_task_finished. by destruct r.
  - rewrite run_task_finish. by destruct r.
  - rewrite body_send.
    destruct (send_of r m s) as [[[]|e] s'].
    + apply IH. simpl in Hfuel. lia.
    + apply run_task_finish.
Qed.

Lemma bind_assoc {A B C} (c : M A) (f : A → M B) (g : B → M C) s :
  bind (bind c f) g s = bind c (λ x, bind (f x) g) s.
Proof. unfold bind. by destruct (c s) as [[a|e] s']. Qed.

Lemma bind_ext {A B} (c : M A) (f g : A → M B) s :
  (∀ a s', f a s' = g a s') → bind c f s = bind c g s.
Proof. intros Hfg. unfold bind. by destruct (c s) as [[a|e] s']. Qed.

Lemma bind_capture_app {A} scope (k : unit → M A) s :
  bind (capture_app scope) k s =
    k tt {| self := capture scope (self s); world := world s |}.
Proof. unfold bind. by rewrite capture_app_eq. Qed.

Lemma after_guard_resume scope receive s :
  (capture_app scope ;;; dispatch scope receive) s =
    (let* o := after_guard scope receive in resume o) s.
Proof.
  unfold after_guard. rewrite bind_assoc, !bind_capture_app.
  unfold dispatch.
  case_decide; [reflexivity|]. case_decide; [|reflexivity].
  rewrite bind_assoc. apply bind_ext. intros mw s1.
  case_decide; [reflexivity|].
  rewrite bind_assoc. apply bind_ext. reflexivity.
Qed.

(** A call that runs alone, given enough steps, ends as [__call__] does. *)
Lemma run_task_call scope receive s :
  ∃ n, ∀ fuel, n ≤ fuel →
    run_task fuel (Pending scope receive) s = finish (__call__ scope receive s).
Proof.
  rewrite call_eq.
  assert (ensure_metrics s =
          (if negb (metrics_created (self s)) then create_metrics else ret tt) s)
    as Hen by done.
  unfold bind at 1. rewrite Hen.
  destruct ((if negb (metrics_created (self s)) then create_metrics else ret tt) s)
    as [[[]|e] s1] eqn:Hg.
  - rewrite after_guard_resume. unfold bind at 1.
    destruct (after_guard scope receive s1) as [[[[r p]|]|e] s2] eqn:Ha.
    + exists (3 + length (emitted p)). intros fuel Hfuel.
      do 2 (destruct fuel as [|fuel]; [lia|]). cbn [run_task step].
      unfold bind at 1. rewrite Hg, Ha.
      apply run_task_awaiting. lia.
    + exists 2. intros fuel Hfuel.
      do 2 (destruct fuel as [|fuel]; [lia|]). cbn [run_task step].
      unfold bind at 1. rewrite Hg, Ha. apply run_task_finished.
    + exists 2. intros fuel Hfuel.
      do 2 (destruct fuel as [|fuel]; [lia|]). cbn [run_task step].
      unfold bind at 1. rewrite Hg, Ha. apply run_task_finished.
  - exists 2. intros fuel Hfuel.
    do 2 (destruct fuel as [|fuel]; [lia|]). cbn [run_task step].
    unfold bind at 1. rewrite Hg. apply run_task_finished.
Qed.

(** ** Calls interleaved at their awaits *)

Lemma created_inc a labels s :
  created s →
  inc a labels s = (Normal tt, {| self := inc_pure a labels (self s); world := world s |}) ∧
  created {| self := inc_pure a labels (self s); world := world s |}.
Proof.
  intros [Hex Hc]. split; [by apply inc_exists|]. split; simpl.
  - by apply counters_exist_inc_pure.
  - by destruct (same_settings_inc_pure a labels (self s)) as (_&_&_&_&_&_&_&->).
Qed.

Lemma enter_eq scope receive r s :
  enter scope receive r s =
    (Normal (Some (r, asgi_callable (self s) scope receive)),
     {| self := self s;
        world := push_invocation
                   {| inv_scope := scope; inv_receive := receive; inv_send := r |}
                   (world s) |}).
Proof. reflexivity. Qed.

Lemma after_guard_created scope receive s :
  created s →
  ∃ o s', after_guard scope receive s = (Normal o, s') ∧ created s' ∧
          registries (world s') = registries (world s).
Proof.
  intros [Hex Hc]. unfold after_guard. rewrite bind_capture_app.
  assert (created {| self := capture scope (self s); world := world s |}) as Hcr.
  { split; simpl; [by apply counters_exist_capture|].
    by destruct (same_settings_capture scope (self s)) as (_&_&_&_&->). }
  case_decide; [rewrite enter_eq; eauto|].
  case_decide; [|eauto].
  unfold bind at 1, get_self at 1.
  case_decide; [rewrite enter_eq; eauto|].
  unfold bind at 1.
  match goal with
  | |- context [inc ?a ?l ?st] => destruct (created_inc a l st Hcr) as [-> Hcr']
  end.
  rewrite enter_eq. eauto.
Qed.

Lemma leave_created r e s :
  created s →
  ∃ res s', leave r e s = (res, s') ∧ created s' ∧
            registries (world s') = registries (world s).
Proof.
  intros Hcr. destruct r as [|labels]; simpl; [unfold raise; eauto|].
  unfold try_except_Exception_reraise, raise.
  destruct (except_Exception e); [|eauto].
  destruct Hcr as [Hex Hc]. rewrite failure_accounting_exists by done.
  eexists _, _. split; [done|]. split; [|done]. split; simpl.
  - unfold on_failure. by repeat apply counters_exist_inc_pure.
  - by destruct (same_settings_on_failure labels (self s)) as (_&_&_&_&_&_&_&->).
Qed.

Lemma send_of_created r m s :
  created s →
  ∃ s', send_of r m s = (Normal tt, s') ∧ created s' ∧
        registries (world s') = registries (world s).
Proof.
  intros [Hex Hc]. destruct r as [|labels]; simpl.
  - rewrite send_eq. eexists. split; [done|]. split; [by split | done].
  - rewrite wrapped_send_exists by done.
    eexists. split; [done|]. split; [|done]. split; simpl.
    + by apply counters_exist_on_send.
    + by destruct (same_settings_on_send labels (self s) m) as (_&_&_&_&_&_&_&->).
Qed.

Lemma step_checked_created sc rc s :
  created s →
  ∃ t' s', step (Checked true sc rc) s = (t', s') ∧ unchecked t' ∧ created s' ∧
           registries (world s') = registries (world s).
Proof.
  intros Hcr. cbn [step negb]. unfold bind at 1, ret at 1.
  destruct (after_guard_created sc rc s Hcr) as (o & s' & -> & Hcr' & Hreg).
  destruct o as [[r p]|]; eexists _, _; (split; [done|]); by split_and!.
Qed.

Lemma coop_step_pending sc rc s :
  coop_step (Pending sc rc) s = step (Checked (metrics_created (self s)) sc rc) s.
Proof. reflexivity. Qed.

Lemma coop_step_created t s :
  created s → unchecked t →
  let ts := coop_step t s in
  unchecked ts.1 ∧ created ts.2 ∧ registries (world ts.2) = registries (world s).
Proof.
  intros Hcr Hun. cbv zeta.
  destruct t as [sc rc|b sc rc|r [|e|m k]|res]; [|done|..].
  - rewrite coop_step_pending, (proj2 Hcr).
    by destruct (step_checked_created sc rc s Hcr) as (t' & s' & -> & ? & ? & ?).
  - by cbn [coop_step step fst snd].
  - cbn [coop_step step]. unfold finish.
    by destruct (leave_created r (Foreign e) s Hcr) as (res & s' & -> & ? & ?).
  - cbn [coop_step step].
    by destruct (send_of_created r m s Hcr) as (s' & -> & ? & ?).
  - by cbn [coop_step step fst snd].
Qed.

Lemma coop_schedule_created sched pool s :
  created s → Forall unchecked pool →
  let ps := run_schedule coop_step sched pool s in
  created ps.2 ∧ registries (world ps.2) = registries (world s).
Proof.
  revert pool s. induction sched as [|i rest IH]; intros pool s Hcr Hun; simpl.
  - done.
  - destruct (pool !! i) as [t|] eqn:Hi; [|by apply IH].
    pose proof (Forall_lookup_1 _ _ _ _ Hun Hi) as Ht.
    destruct (coop_step_created t s Hcr Ht) as (Hun' & Hcr' & Hreg).
    destruct (coop_step t s) as [t' s'] eqn:Hst. simpl in *.
    destruct (IH (<[i:=t']> pool) s' Hcr') as [Hcr'' Hreg'].
    { by apply Forall_insert. }
    split; [done | congruence].
Qed.

(** C9 (amended).  The guard holds no lock; it is a test of the flag
    followed by [create_metrics], with no [await] in between.  When concurrent first requests
    on one instance are interleaved at their awaits only, as coroutines on
    an event loop are, the first of them to run registers the four
    counters and sets the flag in one step, and no later step of any
    request, in any order, touches the registries: the counters are
    registered once. *)
Theorem C9_cooperative_first_requests events sched i s :
  wf (self s) →
  metrics_created (self s) = false →
  (create_metrics s).1 = Normal tt →
  i < length events →
  let pool := (λ ev : Scope App * Receive, Pending ev.1 ev.2) <$> events in
  let s' := (run_schedule coop_step (i :: sched) pool s).2 in
  registries (world s') = registries (world (create_metrics s).2) ∧
  metrics_created (self s') = true.
Proof.
  intros Hwf Hc Hcm Hi pool s'. subst s'. cbn [run_schedule].
  assert (Forall unchecked pool) as Hun.
  { unfold pool. apply Forall_fmap, Forall_forall. by intros [sc rc] _. }
  destruct (lookup_lt_is_Some_2 pool i) as [t Ht];
    [by unfold pool; rewrite length_fmap|].
  rewrite Ht. unfold pool in Ht. rewrite list_lookup_fmap in Ht.
  destruct (events !! i) as [[sc rc]|]; [|done]. injection Ht as <-.
  rewrite coop_step_pending, Hc. cbn [step negb]. unfold bind.
  destruct (create_metrics s) as [[[]|e] s1] eqn:Hcs; [|done].
  apply create_metrics_inv in Hcs as (_ & _ & Hself).
  assert (created s1) as Hcr.
  { split; rewrite Hself; [apply counters_exist_with_metrics | done]. }
  destruct (after_guard_created sc rc s1 Hcr) as (o & s2 & -> & Hcr2 & Hreg).
  simpl snd.
  assert (∀ t', unchecked t' →
            registries (world (run_schedule coop_step sched (<[i:=t']> pool) s2).2) =
              registries (world s1) ∧
            metrics_created (self (run_schedule coop_step sched (<[i:=t']> pool) s2).2) = true)
    as Hrest.
  { intros t' Ht'.
    destruct (coop_schedule_created sched (<[i:=t']> pool) s2 Hcr2) as [[_ Hc'] Hreg'].
    - by apply Forall_insert.
    - split; [congruence | done]. }
  destruct o as [[r p]|]; by apply Hrest.
Qed.

(** ** Further properties of the request life cycle *)

(** What a call adds to the counters: nothing, or what a tracked request
    adds. *)
Lemma call_incs scope receive s :
  wf (self s) →
  let s' := (__call__ scope receive s).2 in
  let mw := capture scope (self s) in
  let labels := request_labels (scope_method scope)
                  (get_full_or_template_path mw scope) in
  let p := asgi_callable (self s) scope receive in
  (∀ a, incs a (self s') = incs a (self s)) ∨
  ((ensure_metrics s).1 = Normal tt ∧
   scope_type scope ∈ ["http"; "websocket"] ∧
   (get_full_or_template_path mw scope ∉ exclude_paths (self s)) ∧
   ∀ a, incs a (self s') =
     incs a (self s) ++
     match a with
     | requests_counter_attr => [labels]
     | responses_counter_attr =>
         ((λ _, labels) <$> starts (emitted p)) ++
         (if fails p then [labels] else [])
     | exceptions_counter_attr => if fails p then [labels] else []
     | status_codes_counter_attr =>
         ((λ st, with_status_code (bucket (group_status_codes (self s)) st) labels)
            <$> starts (emitted p)) ++
         (if fails p
          then [with_status_code
                  (if group_status_codes (self s) then "5xx" else "500") labels]
          else [])
     end).
Proof.
  intros Hwf. cbv zeta.
  destruct (ensure_metrics s) as [[[]|e] s1] eqn:Hen.
  - destruct (ensure_metrics_ok _ _ Hwf Hen) as (Hex & _ & Hincs & _).
    destruct (ensure_metrics_settings _ _ Hwf Hen) as (_ & _ & _ & _ & Hg).
    destruct (same_settings_capture scope (self s1)) as (_ & _ & _ & Hg' & _).
    destruct (scope_type_cases scope) as [Ht|[Ht|Ht]].
    + left. intros a. rewrite (call_lifespan _ _ _ _ Hen Ht). simpl.
      by rewrite incs_capture.
    + rewrite (call_request _ _ _ _ Hwf Hen Ht). cbv zeta.
      case_decide as Hin; simpl.
      * left. intros a. by rewrite incs_capture.
      * right. split_and!; try done. intros a.
        rewrite incs_tracked by (by apply counters_exist_capture).
        by rewrite incs_capture, Hincs, Hg', Hg.
    + left. intros a. rewrite call_other, Hen by done. simpl. apply Hincs.
  - left. intros a. rewrite (call_raises _ _ _ _ _ Hen). simpl.
    unfold ensure_metrics, bind, get_self in Hen. unfold wf in Hwf.
    destruct (metrics_created (self s)) eqn:Hc; [done|]. simpl in Hen.
    apply create_metrics_inv in Hen as (_ & _ & _ & Hattr).
    rewrite Hwf. destruct (Hattr a) as [Heq|Hnil]; [|done].
    unfold incs. rewrite Heq. apply Hwf.
Qed.

(** X1.  A [lifespan] event goes straight to the next callable with the
    caller's own [send]: whatever the callable sends and however it ends,
    exceptions included, no counter moves. *)
Theorem lifespan_passes_through scope receive s :
  wf (self s) →
  (ensure_metrics s).1 = Normal tt →
  scope_type scope = "lifespan" →
  let p := asgi_callable (self s) scope receive in
  let r := (__call__ scope receive s).1 in
  let s' := (__call__ scope receive s).2 in
  r = result_of (outcome p) ∧
  (∀ a, incs a (self s') = incs a (self s)) ∧
  invocations (world s') =
    invocations (world s) ++
    [{| inv_scope := scope; inv_receive := receive; inv_send := OriginalSend |}] ∧
  outbox (world s') = outbox (world s) ++ emitted p.
Proof.
  intros Hwf Hen%ensure_metrics_normal Ht p r s'.
  destruct (ensure_metrics_ok _ _ Hwf Hen) as (_ & _ & Hincs & _ & Hi & Ho).
  destruct (ensure_metrics_settings _ _ Hwf Hen) as (Hc & _).
  subst r s' p. rewrite (call_lifespan _ _ _ _ Hen Ht). simpl.
  rewrite Hc, Hi, Ho. split_and!; try done.
  intros a. by rewrite incs_capture.
Qed.


(** X3.  The accounting of a counted request, whatever the next callable
    does: [requests_total] gets one increment; [responses_total] and
    [status_codes_total] get one per ["http.response.start"] sent, in
    order and with the label of its status, and one more when the callable
    ends with an [Exception]; [exceptions_total] gets one in that case and
    none otherwise.  Other messages are not counted. *)
Theorem tracked_request_accounting scope receive s :
  wf (self s) →
  (ensure_metrics s).1 = Normal tt →
  scope_type scope ∈ ["http"; "websocket"] →
  let mw := capture scope (self s) in
  let labels := request_labels (scope_method scope)
                  (get_full_or_template_path mw scope) in
  let p := asgi_callable (self s) scope receive in
  let s' := (__call__ scope receive s).2 in
  get_full_or_template_path mw scope ∉ exclude_paths (self s) →
  incs requests_counter_attr (self s') =
    incs requests_counter_attr (self s) ++ [labels] ∧
  incs responses_counter_attr (self s') =
    incs responses_counter_attr (self s) ++
    ((λ _, labels) <$> starts (emitted p)) ++
    (if fails p then [labels] else []) ∧
  incs status_codes_counter_attr (self s') =
    incs status_codes_counter_attr (self s) ++
    ((λ st, with_status_code (bucket (group_status_codes (self s)) st) labels)
       <$> starts (emitted p)) ++
    (if fails p
     then [with_status_code (if group_status_codes (self s) then "5xx" else "500")
             labels]
     else []) ∧
  incs exceptions_counter_attr (self s') =
    incs exceptions_counter_attr (self s) ++ (if fails p then [labels] else []).
Proof.
  intros Hwf Hen%ensure_metrics_normal Ht mw labels p s' Hnex.
  destruct (ensure_metrics_ok _ _ Hwf Hen) as (Hex & _ & Hincs & _).
  destruct (ensure_metrics_settings _ _ Hwf Hen) as (_ & _ & _ & _ & Hg).
  destruct (same_settings_capture scope (ensure_metrics s).2.(self))
    as (_ & _ & _ & Hg' & _).
  subst s'. rewrite (call_request _ _ _ _ Hwf Hen Ht). cbv zeta.
  rewrite decide_False by done. simpl. fold mw labels p.
  pose proof (counters_exist_capture scope _ Hex) as Hex'.
  rewrite !incs_tracked by done.
  by rewrite !incs_capture, !Hincs, Hg', Hg.
Qed.

(** X4.  An exception of the next callable that is not an instance of
    [Exception] (a cancellation) passes through the [except Exception]
    clause: the call raises it, [exceptions_total] is not incremented, no
    status 500 is recorded, and only the response starts already sent are
    counted. *)
Theorem base_exception_not_counted scope receive s e :
  wf (self s) →
  (ensure_metrics s).1 = Normal tt →
  scope_type scope ∈ ["http"; "websocket"] →
  let mw := capture scope (self s) in
  let labels := request_labels (scope_method scope)
                  (get_full_or_template_path mw scope) in
  let p := asgi_callable (self s) scope receive in
  let r := (__call__ scope receive s).1 in
  let s' := (__call__ scope receive s).2 in
  get_full_or_template_path mw scope ∉ exclude_paths (self s) →
  outcome p = Some e →
  isinstance_Exception e = false →
  r = Raises (Foreign e) ∧
  incs exceptions_counter_attr (self s') = incs exceptions_counter_attr (self s) ∧
  incs requests_counter_attr (self s') =
    incs requests_counter_attr (self s) ++ [labels] ∧
  incs responses_counter_attr (self s') =
    incs responses_counter_attr (self s) ++ ((λ _, labels) <$> starts (emitted p)) ∧
  incs status_codes_counter_attr (self s') =
    incs status_codes_counter_attr (self s) ++
    ((λ st, with_status_code (bucket (group_status_codes (self s)) st) labels)
       <$> starts (emitted p)).
Proof.
  intros Hwf Hen%ensure_metrics_normal Ht mw labels p r s' Hnex Hout He.
  destruct (ensure_metrics_ok _ _ Hwf Hen) as (Hex & _ & Hincs & _).
  destruct (ensure_metrics_settings _ _ Hwf Hen) as (_ & _ & _ & _ & Hg).
  destruct (same_settings_capture scope (ensure_metrics s).2.(self))
    as (_ & _ & _ & Hg' & _).
  subst r s'. rewrite (call_request _ _ _ _ Hwf Hen Ht). cbv zeta.
  rewrite decide_False by done. simpl. fold mw labels p.
  pose proof (counters_exist_capture scope _ Hex) as Hex'.
  assert (fails p = false) as Hf by (unfold fails; by rewrite Hout).
  rewrite !incs_tracked by done.
  rewrite !incs_capture, !Hincs, Hf, Hg', Hg, Hout, !app_nil_r. done.
Qed.

(** X5.  A request is counted exactly when its classified path is not in
    [exclude_paths]: the next callable is handed [wrapped_send] and
    [requests_total] moves in that case, and it is handed the caller's
    [send] and no counter moves in the other. *)
Theorem counted_iff_not_excluded scope receive s :
  wf (self s) →
  (ensure_metrics s).1 = Normal tt →
  scope_type scope ∈ ["http"; "websocket"] →
  let mw := capture scope (self s) in
  let path := get_full_or_template_path mw scope in
  let labels := request_labels (scope_method scope) path in
  let s' := (__call__ scope receive s).2 in
  (path ∉ exclude_paths (self s) ↔
   incs requests_counter_attr (self s') =
     incs requests_counter_attr (self s) ++ [labels]) ∧
  (path ∈ exclude_paths (self s) ↔ ∀ a, incs a (self s') = incs a (self s)) ∧
  invocations (world s') =
    invocations (world s) ++
    [{| inv_scope := scope; inv_receive := receive;
        inv_send := if decide (path ∈ exclude_paths (self s))
                    then OriginalSend else WrappedSend labels |}].
Proof.
  intros Hwf Hen%ensure_metrics_normal Ht mw path labels s'.
  destruct (ensure_metrics_ok _ _ Hwf Hen) as (Hex & _ & Hincs & _ & Hi & _).
  pose proof (counters_exist_capture scope _ Hex) as Hex'.
  subst s'. rewrite (call_request _ _ _ _ Hwf Hen Ht). cbv zeta.
  fold mw path labels.
  assert (∀ l : list Labels, l ≠ l ++ [labels]) as Hne.
  { intros l Hl. apply (f_equal length) in Hl. rewrite length_app in Hl.
    simpl in Hl. lia. }
  case_decide as Hin; simpl.
  - split_and!.
    + split; [done|]. rewrite incs_capture, Hincs. by intros ?%Hne.
    + split; [|done]. intros _ a. by rewrite incs_capture.
    + by rewrite Hi.
  - split_and!.
    + split; [|done]. intros _. rewrite incs_tracked by done.
      by rewrite incs_capture, Hincs.
    + split; [done|]. intros Hsame. specialize (Hsame requests_counter_attr).
      rewrite incs_tracked in Hsame by done.
      rewrite incs_capture, Hincs in Hsame. symmetry in Hsame. by apply Hne in Hsame.
    + by rewrite Hi.
Qed.

(** ** Registration *)

(** [create_metrics] registers the four collectors with the registry of the
    instance, in order and up to the first refusal, and sets the flag if
    none was refused. *)
Lemma create_metrics_registers s :
  let r := default REGISTRY (registry (self s)) in
  let out := register_all (metric_defs (self s)) (registries (world s) r) in
  let s' := (create_metrics s).2 in
  (create_metrics s).1 =
    match out.1 with None => Normal tt | Some e => Raises (Foreign e) end ∧
  registries (world s') r = out.2 ∧
  (∀ r', r' ≠ r → registries (world s') r' = registries (world s) r') ∧
  metrics_created (self s') =
    match out.1 with None => true | Some _ => metrics_created (self s) end.
Proof.
  cbv zeta. unfold create_metrics, metric_defs, bind, get_self, Counter_new, modify_self.
  destruct s as [mw w]. cbn [self world registries register_all].
  repeat (rewrite ?fn_lookup_insert;
          match goal with
          | |- context [register ?d ?reg] =>
              destruct (register d reg) as [?|?]; cbn [self world registries fst snd]
          end);
    (split_and!; [done | by rewrite ?fn_lookup_insert | | done]);
    intros r' Hr'; by rewrite ?fn_lookup_insert_ne.
Qed.


(** ** The configuration *)

Lemma same_config_refl mw : same_config mw mw.
Proof. by repeat split. Qed.

Lemma same_config_trans mw1 mw2 mw3 :
  same_config mw1 mw2 → same_config mw2 mw3 → same_config mw1 mw3.
Proof. unfold same_config. intros ? ?. destruct_and!. repeat split; congruence. Qed.

Lemma same_settings_config mw mw' : same_settings mw mw' → same_config mw mw'.
Proof. unfold same_settings, same_config. intros ?. by destruct_and!. Qed.

Lemma same_config_capture scope mw : same_config mw (capture scope mw).
Proof.
  unfold capture. destruct (starlette_app mw); [apply same_config_refl|].
  case_decide; [by repeat split | apply same_config_refl].
Qed.

Lemma same_config_ensure s :
  same_config (self s) (self (ensure_metrics s).2).
Proof.
  unfold ensure_metrics, bind, get_self.
  destruct (metrics_created (self s)); simpl; [apply same_config_refl|].
  destruct (create_metrics s) as [[[]|e] s1] eqn:Hcm;
    apply create_metrics_inv in Hcm as (_ & _ & Hself); simpl.
  - rewrite Hself. by repeat split.
  - by apply same_settings_config, Hself.
Qed.

(** A call leaves the configuration of the instance as it is. *)
Lemma call_config scope receive s :
  wf (self s) → same_config (self s) (self (__call__ scope receive s).2).
Proof.
  intros Hwf. pose proof (same_config_ensure s) as Hens.
  destruct (ensure_metrics s) as [[[]|e] s1] eqn:Hen; simpl in Hens.
  - assert (same_config (self s) (capture scope (self s1))) as Hcap
      by (eapply same_config_trans; [done | apply same_config_capture]).
    destruct (scope_type_cases scope) as [Ht|[Ht|Ht]].
    + by rewrite (call_lifespan _ _ _ _ Hen Ht).
    + rewrite (call_request _ _ _ _ Hwf Hen Ht). cbv zeta.
      case_decide; simpl; [done|].
      eapply same_config_trans; [done|].
      apply same_settings_config, same_settings_tracked.
    + by rewrite call_other, Hen.
  - by rewrite (call_raises _ _ _ _ _ Hen).
Qed.

Lemma serve_config events s :
  wf (self s) → same_config (self s) (self (serve events s)).
Proof.
  revert s. induction events as [|[scope receive] rest IH]; intros s Hwf; simpl.
  - apply same_config_refl.
  - eapply same_config_trans; [by apply call_config|].
    apply IH. by apply call_inv.
Qed.

(** X6.  The first call registers [requests_total_counter],
    [responses_total_counter], [exceptions_total_counter] and
    [status_codes_counter], in this order, with the registry of the
    instance (the default one if it has none), and stops at the first
    refusal.  A refusal is raised by the call before the next callable is
    reached; what was registered before it stays registered and the flag
    stays unset, so that the next call registers from the start again. *)
Theorem first_call_registers_in_order scope receive s :
  wf (self s) →
  metrics_created (self s) = false →
  let r := default REGISTRY (registry (self s)) in
  let out := register_all (metric_defs (self s)) (registries (world s) r) in
  let res := (__call__ scope receive s).1 in
  let s' := (__call__ scope receive s).2 in
  registries (world s') r = out.2 ∧
  metrics_created (self s') =
    match out.1 with None => true | Some _ => false end ∧
  ∀ e, out.1 = Some e →
    res = Raises (Foreign e) ∧
    invocations (world s') = invocations (world s) ∧
    outbox (world s') = outbox (world s) ∧
    ensure_metrics s' = create_metrics s'.
Proof.
  intros Hwf Hc r out res s'.
  destruct (call_inv scope receive s Hwf) as (_ & Hreg & _ & Hflag).
  fold s' in Hreg, Hflag.
  rewrite ensure_metrics_not_created in Hreg, Hflag by done.
  destruct (create_metrics_registers s) as (Hres & Hr & _ & Hfl).
  fold r out in Hres, Hr, Hfl.
  split; [by rewrite Hreg|].
  destruct out.1 as [e|] eqn:Hout.
  - assert (__call__ scope receive s = create_metrics s) as Hcall.
    { destruct (create_metrics s) as [res1 s1] eqn:Hcm. simpl in Hres. subst res1.
      apply call_raises. by rewrite ensure_metrics_not_created. }
    subst res s'. rewrite Hcall, Hfl, Hc. split; [done|].
    intros ? [= <-]. split; [done|].
    destruct (create_metrics s) as [res1 s1] eqn:Hcm.
    apply create_metrics_inv in Hcm as (Hi & Ho & _). simpl.
    split_and!; try done. apply ensure_metrics_not_created.
    simpl in Hfl. by rewrite Hfl.
  - split; [by apply Hflag; rewrite Hres | done].
Qed.

(** X7.  Serving events never changes the configuration of the instance
    (next callable, exclusions, flags, registry, constant labels), and it
    never touches a registry other than the one of the instance. *)
Theorem configuration_and_other_registries_untouched events s :
  wf (self s) →
  same_config (self s) (self (serve events s)) ∧
  ∀ r', r' ≠ default REGISTRY (registry (self s)) →
    registries (world (serve events s)) r' = registries (world s) r'.
Proof.
  intros Hwf. split; [by apply serve_config|].
  revert s Hwf. induction events as [|[scope receive] rest IH];
    intros s Hwf r' Hr'; simpl; [done|].
  destruct (call_inv scope receive s Hwf) as (Hwf' & Hreg & _).
  destruct (call_config scope receive s Hwf) as (_ & _ & _ & _ & Hregistry & _).
  rewrite IH by (by rewrite ?Hregistry). rewrite Hreg.
  unfold ensure_metrics, bind, get_self.
  destruct (metrics_created (self s)); [done|]. simpl.
  by apply create_metrics_registers.
Qed.

(** ** Exceptions *)



(** ** Counter values *)

Lemma value_incs a labels mw :
  value a labels mw = length (filter (λ l, l = labels) (incs a mw)).
Proof. unfold value, incs. by destruct (getattr a mw). Qed.

Lemma value_app a labels mw mw' added :
  incs a mw' = incs a mw ++ added →
  value a labels mw' = value a labels mw + length (filter (λ l, l = labels) added).
Proof. intros Hincs. by rewrite !value_incs, Hincs, list.filter_app, List.length_app. Qed.

Lemma filter_same (labels l : Labels) (n : nat) :
  length (filter (λ l', l' = l) (replicate n labels)) =
    if decide (labels = l) then n else 0.
Proof.
  destruct (decide (labels = l)) as [->|Hne]; induction n as [|n IH]; simpl;
    rewrite ?list.filter_cons, ?decide_True, ?decide_False by done; simpl;
    by rewrite ?IH.
Qed.

(** X9.  Counters only grow: through any sequence of events the
    increments a counter had recorded stay, in order, at the head of what
    it has recorded afterwards, and no value it exposes decreases. *)
Theorem counters_only_grow events s a :
  wf (self s) →
  incs a (self s) `prefix_of` incs a (self (serve events s)) ∧
  ∀ labels, value a labels (self s) ≤ value a labels (self (serve events s)).
Proof.
  intros Hwf.
  assert (incs a (self s) `prefix_of` incs a (self (serve events s))) as Hpre.
  { revert s Hwf. induction events as [|[scope receive] rest IH]; intros s Hwf;
      simpl; [done|].
    etrans; [|apply IH; by apply call_inv].
    destruct (call_incs scope receive s Hwf) as [Hsame|(_ & _ & _ & Hadd)].
    - by rewrite Hsame.
    - rewrite Hadd. by apply prefix_app_r. }
  split; [done|]. intros labels. destruct Hpre as [added Hadded].
  rewrite (value_app _ _ _ _ _ Hadded). lia.
Qed.

(** ** Label names *)

Lemma dom_request_labels method p :
  dom (request_labels method p) = ({["method"; "path"]} : gset string).
Proof. unfold request_labels. rewrite !dom_insert_L, dom_empty_L. set_solver. Qed.

Lemma dom_with_status_code code method p :
  dom (with_status_code code (request_labels method p)) =
    ({["method"; "path"; "status_code"]} : gset string).
Proof.
  unfold with_status_code. rewrite dom_insert_L, dom_request_labels. set_solver.
Qed.

Lemma call_well_labelled scope receive s :
  wf (self s) → well_labelled (self s) →
  well_labelled (self (__call__ scope receive s).2).
Proof.
  intros Hwf Hlab a.
  destruct (call_incs scope receive s Hwf) as [Hsame|(_ & _ & _ & Hadd)].
  - rewrite Hsame. apply Hlab.
  - rewrite Hadd. apply Forall_app. split; [apply Hlab|].
    destruct a; simpl; repeat first [apply Forall_app; split | case_match];
      rewrite ?Forall_fmap; repeat constructor;
      try (apply Forall_forall; intros; simpl);
      auto using dom_request_labels, dom_with_status_code.
Qed.

(** X10.  In every state reached from a newly built instance, every
    sample of [requests_total], [responses_total] and [exceptions_total]
    carries exactly the labels [method] and [path] (the method being
    [None] when the scope has none), and every sample of
    [status_codes_total] exactly [method], [path] and [status_code]. *)
Theorem samples_carry_their_label_names
    app registry_arg exclude templates group cl w mw w' events :
  __init__ app registry_arg exclude templates group cl w = (Normal mw, w') →
  well_labelled (self (serve events {| self := mw; world := w' |})).
Proof.
  intros Hinit.
  destruct (init_wf _ _ _ _ _ _ _ _ _ Hinit) as (_ & Hwf & Hc & _).
  assert (well_labelled mw) as Hlab.
  { intros a. unfold wf in Hwf. rewrite Hc in Hwf. by rewrite Hwf. }
  clear Hinit Hc.
  assert (∀ s, wf (self s) → well_labelled (self s) →
               well_labelled (self (serve events s))) as Hserve.
  { induction events as [|[scope receive] rest IH]; intros s Hwf' Hlab'; simpl;
      [done|].
    apply IH; [by apply call_inv | by apply call_well_labelled]. }
  by apply Hserve.
Qed.

(** ** The same request again *)

(** After a request event has been served, the same event finds the
    metrics created and is classified as before. *)
Lemma request_again scope receive s :
  wf (self s) →
  (ensure_metrics s).1 = Normal tt →
  scope_type scope ∈ ["http"; "websocket"] →
  let s' := (__call__ scope receive s).2 in
  wf (self s') ∧
  (ensure_metrics s').1 = Normal tt ∧
  get_full_or_template_path (capture scope (self s')) scope =
    get_full_or_template_path (capture scope (self s)) scope ∧
  same_config (self s) (self s').
Proof.
  intros Hwf Hen Ht s'.
  destruct (call_inv scope receive s Hwf) as (Hwf' & _ & Happ & Hflag).
  pose proof (call_config scope receive s Hwf) as Hcfg.
  fold s' in Hwf', Happ, Hflag, Hcfg. rewrite Hen in Happ.
  split; [done|]. split; [by rewrite ensure_metrics_created by auto|].
  split; [|done].
  apply get_full_or_template_path_ext.
  - destruct (same_settings_capture scope (self s')) as (_ & _ & -> & _).
    destruct (same_settings_capture scope (self s)) as (_ & _ & -> & _).
    by destruct Hcfg as (_ & _ & -> & _).
  - rewrite starlette_app_capture, Happ. rewrite starlette_app_capture.
    destruct (starlette_app (self s)); [done|].
    rewrite decide_True by (by right).
    by destruct (scope_app scope).
Qed.

(** What one counted request adds to each counter. *)
Lemma call_tracked_incs scope receive s a :
  wf (self s) →
  (ensure_metrics s).1 = Normal tt →
  scope_type scope ∈ ["http"; "websocket"] →
  let mw := capture scope (self s) in
  let labels := request_labels (scope_method scope)
                  (get_full_or_template_path mw scope) in
  let p := asgi_callable (self s) scope receive in
  get_full_or_template_path mw scope ∉ exclude_paths (self s) →
  incs a (self (__call__ scope receive s).2) =
    incs a (self s) ++
    match a with
    | requests_counter_attr => [labels]
    | responses_counter_attr =>
        ((λ _, labels) <$> starts (emitted p)) ++
        (if fails p then [labels] else [])
    | exceptions_counter_attr => if fails p then [labels] else []
    | status_codes_counter_attr =>
        ((λ st, with_status_code (bucket (group_status_codes (self s)) st) labels)
           <$> starts (emitted p)) ++
        (if fails p
         then [with_status_code
                 (if group_status_codes (self s) then "5xx" else "500") labels]
         else [])
    end.
Proof.
  intros Hwf Hen%ensure_metrics_normal Ht mw labels p Hnex.
  destruct (ensure_metrics_ok _ _ Hwf Hen) as (Hex & _ & Hincs & _).
  destruct (ensure_metrics_settings _ _ Hwf Hen) as (_ & _ & _ & _ & Hg).
  destruct (same_settings_capture scope (ensure_metrics s).2.(self))
    as (_ & _ & _ & Hg' & _).
  rewrite (call_request _ _ _ _ Hwf Hen Ht). cbv zeta.
  rewrite decide_False by done. simpl. fold mw labels p.
  rewrite incs_tracked by (by apply counters_exist_capture).
  by rewrite incs_capture, Hincs, Hg', Hg.
Qed.

Lemma fmap_const_replicate {A B} (b : B) (l : list A) :
  (λ _, b) <$> l = replicate (length l) b.
Proof. induction l as [|x l IH]; [done|]. rewrite fmap_cons, IH. done. Qed.

(** X11.  Counts add up: serving the same counted request [n] times
    raises the value of [requests_total] at its label set by [n], that of
    [responses_total] by [n] times what one request adds (one per response
    start sent, one more on an [Exception]), that of [exceptions_total] by
    [n] if the request ends with an [Exception]; the values at every other
    label set stay as they are. *)
Theorem repeated_request_adds_up (n : nat) scope receive s l :
  wf (self s) →
  (ensure_metrics s).1 = Normal tt →
  scope_type scope ∈ ["http"; "websocket"] →
  let mw := capture scope (self s) in
  let labels := request_labels (scope_method scope)
                  (get_full_or_template_path mw scope) in
  let p := asgi_callable (self s) scope receive in
  let s' := serve (replicate n (scope, receive)) s in
  let per_request := length (starts (emitted p)) + (if fails p then 1 else 0) in
  get_full_or_template_path mw scope ∉ exclude_paths (self s) →
  value requests_counter_attr l (self s') =
    value requests_counter_attr l (self s) + (if decide (labels = l) then n else 0) ∧
  value responses_counter_attr l (self s') =
    value responses_counter_attr l (self s) +
    (if decide (labels = l) then n * per_request else 0) ∧
  value exceptions_counter_attr l (self s') =
    value exceptions_counter_attr l (self s) +
    (if decide (labels = l) then (if fails p then n else 0) else 0).
Proof.
  intros Hwf Hen Ht. cbv zeta. revert s Hwf Hen.
  induction n as [|n IH]; intros s Hwf Hen Hnex; simpl.
  { repeat case_decide; repeat case_match; split_and!; lia. }
  destruct (request_again scope receive s Hwf Hen Ht)
    as (Hwf' & Hen' & Hpath & (Hc & Hexc & _)).
  set (s1 := (__call__ scope receive s).2) in *.
  destruct (IH s1 Hwf' Hen') as (IHreq & IHresp & IHexc);
    [by rewrite Hpath, Hexc|].
  rewrite IHreq, IHresp, IHexc, Hpath, Hc. clear IHreq IHresp IHexc.
  set (labels := request_labels _ _) in *.
  set (p := asgi_callable (self s) scope receive) in *.
  pose proof (λ a, call_tracked_incs scope receive s a Hwf Hen Ht Hnex) as Hincs.
  fold s1 labels p in Hincs.
  rewrite (value_app _ l _ _ _ (Hincs requests_counter_attr)).
  rewrite (value_app _ l _ _ _ (Hincs responses_counter_attr)).
  rewrite (value_app _ l _ _ _ (Hincs exceptions_counter_attr)).
  rewrite fmap_const_replicate.
  change [labels] with (replicate 1 labels).
  destruct (fails p);
    rewrite ?list.filter_app, ?List.length_app, ?app_nil_r, !filter_same;
    simpl; case_decide; split_and!; lia.
Qed.

(** ** The first request of an application that sent no [lifespan] *)

(** The handle is taken before the path is classified. *)
Lemma path_after_capture scope mw app t :
  use_template_urls mw = true →
  starlette_app mw = None →
  scope_type scope ∈ ["lifespan"; "http"; "websocket"] →
  scope_app scope = Some app →
  route_loop (routes app) scope = Some t →
  get_full_or_template_path (capture scope mw) scope = t.
Proof.
  intros Hu Ha Ht Happ Hr. unfold get_full_or_template_path.
  destruct (same_settings_capture scope mw) as (_ & _ & -> & _).
  rewrite starlette_app_capture, Hu, Ha, decide_True, Happ, Hr by done. done.
Qed.

(** X12.  A request that arrives while no handle is held brings the
    handle in its own scope and is classified with it in the same call:
    with template URLs enabled and a route of the scope's application
    matching fully, the request is counted under the template of that
    route, and it is the template, not the literal path, that is looked up
    in the exclusion list. *)
Theorem first_request_counted_under_template scope receive s app t :
  wf (self s) →
  (ensure_metrics s).1 = Normal tt →
  scope_type scope ∈ ["http"; "websocket"] →
  use_template_urls (self s) = true →
  starlette_app (self s) = None →
  scope_app scope = Some app →
  route_loop (routes app) scope = Some t →
  let s' := (__call__ scope receive s).2 in
  starlette_app (self s') = Some app ∧
  incs requests_counter_attr (self s') =
    incs requests_counter_attr (self s) ++
    (if decide (t ∈ exclude_paths (self s)) then []
     else [request_labels (scope_method scope) t]).
Proof.
  intros Hwf Hen Ht Hu Ha Happ Hr s'.
  assert (scope_type scope ∈ ["lifespan"; "http"; "websocket"]) as Ht3
    by (by apply list_elem_of_further).
  pose proof (path_after_capture scope (self s) app t Hu Ha Ht3 Happ Hr) as Hp.
  destruct (call_inv scope receive s Hwf) as (_ & _ & Hcap & _).
  fold s' in Hcap. rewrite Hen, starlette_app_capture, Ha, decide_True, Happ in Hcap by done.
  split; [done|].
  apply ensure_metrics_normal in Hen.
  destruct (ensure_metrics_ok _ _ Hwf Hen) as (Hex & _ & Hincs & _).
  subst s'. rewrite (call_request _ _ _ _ Hwf Hen Ht). cbv zeta. rewrite Hp.
  case_decide; simpl.
  - by rewrite incs_capture, Hincs, app_nil_r.
  - rewrite incs_tracked by (by apply counters_exist_capture).
    by rewrite incs_capture, Hincs.
Qed.

(** ** Status labels at the edges *)

Lemma digit_char_inj (d d' : N) :
  (d ≤ 9)%N → (d' ≤ 9)%N → digit_char d = digit_char d' → d = d'.
Proof.
  intros Hd Hd' Heq. unfold digit_char in Heq.
  apply (f_equal Ascii.N_of_ascii) in Heq.
  rewrite !Ascii.N_ascii_embedding in Heq by lia. lia.
Qed.

Lemma str_inj (a b : Z) : str a = str b → a = b.
Proof.
  intros Heq. pose proof (str_reads_back a) as Ha.
  rewrite Heq, str_reads_back in Ha. congruence.
Qed.

Lemma grouped_label_hundreds (code : Z) :
  (100 ≤ code ≤ 999)%Z →
  ∃ d : N, (1 ≤ d ≤ 9)%N ∧ Z.of_N d = (code / 100)%Z ∧
    status_code_label true code = Normal (String (digit_char d) "xx").
Proof.
  intros Hc.
  destruct (grouped_label_leading_digit code) as (d & n & Hd & Hb & Hl); [lia|].
  exists d. split; [done|]. split; [|done]. by apply (three_digits code d n).
Qed.

(** X13.  The status label is always there: [str] of an integer is never
    empty, so taking its first character never raises, whatever the status
    and the setting.  The character need not be a digit: a negative status
    is grouped under ["-xx"], the status 0 under ["0xx"]. *)
Theorem status_label_never_raises (group : bool) (status : Z) :
  (∃ label, status_code_label group status = Normal label ∧ label ≠ "") ∧
  ((status < 0)%Z → status_code_label true status = Normal "-xx") ∧
  (status = 0%Z → status_code_label true status = Normal "0xx").
Proof.
  split; [|split].
  - exists (bucket group status). split; [apply status_code_label_total|].
    unfold bucket, status_code_label.
    destruct (str_nonempty status) as (c & rest & Hs). rewrite Hs.
    by destruct group.
  - intros Hneg. by destruct status.
  - by intros ->.
Qed.

(** X14.  Which responses share a status label.  Without grouping two
    statuses have the same label only if they are the same status; with
    grouping two three-digit statuses have the same label exactly when
    they have the same hundreds digit. *)
Theorem status_labels_distinguish (a b : Z) :
  (status_code_label false a = status_code_label false b ↔ a = b) ∧
  ((100 ≤ a ≤ 999)%Z → (100 ≤ b ≤ 999)%Z →
   (status_code_label true a = status_code_label true b ↔ (a / 100 = b / 100)%Z)).
Proof.
  split.
  - split; [|by intros ->]. unfold status_code_label. intros [= Heq].
    by apply str_inj.
  - intros Ha Hb.
    destruct (grouped_label_hundreds a Ha) as (da & Hda & Ea & ->).
    destruct (grouped_label_hundreds b Hb) as (db & Hdb & Eb & ->).
    split.
    + intros [= Heq]. apply digit_char_inj in Heq; [|lia..]. congruence.
    + intros Heq. rewrite <- Ea, <- Eb in Heq. apply N2Z.inj in Heq. by subst.
Qed.

(** ** Counters that move together *)




End Facts.

(** * The properties at work *)

Import Demo.

Lemma demo_init templates group :
  __init__ demo_app (RegRegistry REGISTRY) EXCLUDE_PATHS templates group None
    empty_world =
    (Normal (demo_instance templates group), empty_world).
Proof. reflexivity. Qed.

Lemma demo_wf templates group : wf (demo_instance templates group).
Proof. by intros []. Qed.

(** [GET /orders/9], answered with 200. *)
Lemma C1_witness :
  let s := demo_state true false in
  let scope := http_scope "GET" "/orders/9" in
  let s' := (__call__ scope tt s).2 in
  let labels := request_labels (Some "GET") "/orders/9" in
  wf (self s) ∧
  (ensure_metrics s).1 = Normal tt ∧
  scope_type scope ∈ ["http"; "websocket"] ∧
  (get_full_or_template_path (capture scope (self s)) scope ∉ exclude_paths (self s)) ∧
  starts (emitted (asgi_callable (self s) scope tt)) = [200%Z] ∧
  fails (asgi_callable (self s) scope tt) = false ∧
  incs requests_counter_attr (self s') = [labels] ∧
  incs responses_counter_attr (self s') = [labels] ∧
  incs status_codes_counter_attr (self s') = [with_status_code "200" labels].
Proof.
  intros s scope s' labels.
  assert (wf (self s)) as Hwf by (intros a; destruct a; reflexivity).
  assert ((ensure_metrics s).1 = Normal tt) as Hen by (vm_compute; reflexivity).
  assert (scope_type scope ∈ ["http"; "websocket"]) as Hty by compute_done.
  assert (get_full_or_template_path (capture scope (self s)) scope
            ∉ exclude_paths (self s)) as Hnex by compute_done.
  assert (starts (emitted (asgi_callable (self s) scope tt)) = [200%Z]) as Hst
    by (vm_compute; reflexivity).
  assert (fails (asgi_callable (self s) scope tt) = false) as Hok
    by (vm_compute; reflexivity).
  do 6 (split; [done|]).
  destruct (C1_request_counted_once (H := demo) scope tt s Hwf Hen Hty Hnex)
    as (Hreq & Hone & _ & _).
  destruct (Hone 200%Z Hst Hok) as [Hresp Hstat].
  split; [exact Hreq|]. split; [exact Hresp | exact Hstat].
Defined.

(** A websocket that is accepted and closed sends no response start: the
    call returns and nothing is counted against [responses_total] or
    [status_codes_total].  A request whose handler raises after the
    response has started is counted twice against each. *)
Lemma C1_counterexample :
  let s := demo_state true false in
  let ws := websocket_scope "/ws" in
  let late := http_scope "GET" "/late" in
  ((∀ a, incs a (self s) = []) ∧
   scope_type ws ∈ ["http"; "websocket"] ∧
   (get_full_or_template_path (capture ws (self s)) ws ∉ exclude_paths (self s)) ∧
   (__call__ ws tt s).1 = Normal tt ∧
   length (incs requests_counter_attr (self (__call__ ws tt s).2)) = 1 ∧
   length (incs responses_counter_attr (self (__call__ ws tt s).2)) = 0 ∧
   length (incs status_codes_counter_attr (self (__call__ ws tt s).2)) = 0) ∧
  (scope_type late ∈ ["http"; "websocket"] ∧
   (get_full_or_template_path (capture late (self s)) late ∉ exclude_paths (self s)) ∧
   (__call__ late tt s).1 = Raises (Foreign (RuntimeError "late")) ∧
   length (incs requests_counter_attr (self (__call__ late tt s).2)) = 1 ∧
   length (incs responses_counter_attr (self (__call__ late tt s).2)) = 2 ∧
   length (incs status_codes_counter_attr (self (__call__ late tt s).2)) = 2).
Proof.
  cbv zeta. split; split_and!; try compute_done. by intros [].
Qed.

(** [GET /boom] with grouped status codes: the handler raises. *)
Lemma C2_witness :
  let s := demo_state true true in
  let scope := http_scope "GET" "/boom" in
  let s' := (__call__ scope tt s).2 in
  let labels := request_labels (Some "GET") "/boom" in
  wf (self s) ∧
  (ensure_metrics s).1 = Normal tt ∧
  scope_type scope ∈ ["http"; "websocket"] ∧
  (get_full_or_template_path (capture scope (self s)) scope ∉ exclude_paths (self s)) ∧
  outcome (asgi_callable (self s) scope tt) = Some (RuntimeError "boom") ∧
  isinstance_Exception (RuntimeError "boom") = true ∧
  (__call__ scope tt s).1 = Raises (Foreign (RuntimeError "boom")) ∧
  incs exceptions_counter_attr (self s') = [labels] ∧
  incs status_codes_counter_attr (self s') = [with_status_code "5xx" labels] ∧
  incs responses_counter_attr (self s') = [labels] ∧
  outbox (world s') = [].
Proof.
  intros s scope s' labels.
  assert (wf (self s)) as Hwf by (intros a; destruct a; reflexivity).
  assert ((ensure_metrics s).1 = Normal tt) as Hen by (vm_compute; reflexivity).
  assert (scope_type scope ∈ ["http"; "websocket"]) as Hty by compute_done.
  assert (get_full_or_template_path (capture scope (self s)) scope
            ∉ exclude_paths (self s)) as Hnex by compute_done.
  assert (outcome (asgi_callable (self s) scope tt) = Some (RuntimeError "boom"))
    as Hout by (vm_compute; reflexivity).
  assert (isinstance_Exception (RuntimeError "boom") = true) as Hexc
    by (vm_compute; reflexivity).
  do 6 (split; [done|]).
  exact (C2_exception_accounting (H := demo) scope tt s (RuntimeError "boom")
           Hwf Hen Hty Hnex Hout Hexc).
Defined.

(** Status 404. *)
Lemma C3_witness :
  (100 ≤ 404 ≤ 999)%Z ∧
  status_code_label (H := demo) false 404 = Normal "404" ∧
  status_code_label (H := demo) true 404 = Normal "4xx".
Proof.
  assert (100 ≤ 404 ≤ 999)%Z as Hrange by lia.
  split; [done|].
  destruct (C3_status_code_bucketing (H := demo) 404) as ((Hlit & _) & _ & Hgrp & _).
  split; [exact Hlit | exact (Hgrp Hrange)].
Defined.

(** [GET /metrics], an excluded path. *)
Lemma C4_witness :
  let s := demo_state true false in
  let scope := http_scope "GET" "/metrics" in
  let s' := (__call__ scope tt s).2 in
  wf (self s) ∧
  (ensure_metrics s).1 = Normal tt ∧
  scope_type scope ∈ ["http"; "websocket"] ∧
  (get_full_or_template_path (capture scope (self s)) scope ∈ exclude_paths (self s)) ∧
  (∀ a, incs a (self s') = incs a (self s)) ∧
  invocations (world s') =
    [{| inv_scope := scope; inv_receive := tt; inv_send := OriginalSend |}] ∧
  outbox (world s') = [response_start 200; response_body "ok"] ∧
  (__call__ scope tt s).1 = Normal tt.
Proof.
  intros s scope s'.
  assert (wf (self s)) as Hwf by (intros a; destruct a; reflexivity).
  assert ((ensure_metrics s).1 = Normal tt) as Hen by (vm_compute; reflexivity).
  assert (scope_type scope ∈ ["http"; "websocket"]) as Hty by compute_done.
  assert (get_full_or_template_path (capture scope (self s)) scope
            ∈ exclude_paths (self s)) as Hex by compute_done.
  do 4 (split; [done|]).
  exact (C4_excluded_path (H := demo) scope tt s Hwf Hen Hty Hex).
Defined.

(** [/users/42] against the routes of [users_app]: the first route matches
    partially and is passed over, the second matches fully and gives its
    template, the third would match fully too. *)
Lemma C5_witness :
  let scope := http_scope "GET" "/users/42" in
  let mw := set_starlette_app (Some users_app) (demo_instance true false) in
  (λ r, (matches r scope).1) <$> users_app = [PARTIAL; FULL; FULL] ∧
  use_template_urls mw = true ∧
  starlette_app mw = Some users_app ∧
  get_full_or_template_path mw scope = "/users/{id}" ∧
  get_full_or_template_path (demo_instance true false) scope = "/users/42" ∧
  get_full_or_template_path (set_starlette_app (Some users_app) (demo_instance false false))
    scope = "/users/42".
Proof.
  intros scope mw.
  assert (use_template_urls mw = true) as Hu by reflexivity.
  assert (starlette_app mw = Some users_app) as Ha by reflexivity.
  split; [vm_compute; reflexivity|]. do 2 (split; [done|]).
  destruct (C5_path_classification (H := demo) mw scope) as (_ & _ & Htmpl).
  destruct (Htmpl users_app Hu Ha) as (Hfirst & _).
  destruct (Hfirst [{| template := "/static"; full_matches := [];
                       partial_matches := ["/users/42"] |}]
              {| template := "/users/{id}"; full_matches := ["/users/42"; "/users/7"];
                 partial_matches := [] |}
              [{| template := "/users/42"; full_matches := ["/users/42"];
                  partial_matches := [] |}]) as (_ & Hpath).
  - reflexivity.
  - intros r Hr. apply list_elem_of_singleton in Hr as ->. vm_compute. discriminate.
  - vm_compute. reflexivity.
  - split; [exact Hpath|]. split.
    + exact (proj1 (proj2 (C5_path_classification (H := demo) (demo_instance true false) scope)) eq_refl).
    + exact (proj1 (C5_path_classification (H := demo)
                      (set_starlette_app (Some users_app) (demo_instance false false))
                      scope) eq_refl).
Defined.

(** The first call on a fresh instance registers the four counters. *)
Lemma C6_witness :
  let s := demo_state true false in
  let scope := http_scope "GET" "/orders/9" in
  wf (self s) ∧
  metrics_created (self s) = false ∧
  (create_metrics s).1 = Normal tt ∧
  registries (world (__call__ scope tt s).2) =
    registries (world (create_metrics s).2) ∧
  metrics_created (self (__call__ scope tt s).2) = true.
Proof.
  intros s scope.
  assert (wf (self s)) as Hwf by (intros a; destruct a; reflexivity).
  assert (metrics_created (self s) = false) as Hc by reflexivity.
  assert ((create_metrics s).1 = Normal tt) as Hcm by (vm_compute; reflexivity).
  do 3 (split; [done|]).
  destruct (C6_lazy_metric_creation (H := demo)) as (_ & Hfirst & _).
  destruct (Hfirst scope tt s Hwf Hc) as [Hreg Hflag].
  split; [exact Hreg | exact (Hflag Hcm)].
Defined.

(** A scope of some other application, met after the handle was captured. *)
Lemma C8_witness :
  let s := (__call__ (http_scope "GET" "/orders/9") tt (demo_state true false)).2 in
  let s' := (__call__ other_scope tt s).2 in
  wf (self s) ∧
  starlette_app (self s) = Some users_app ∧
  starlette_app (self s') = Some users_app ∧
  starlette_app (self (serve [(other_scope, tt); (other_scope, tt)] s')) =
    Some users_app.
Proof.
  intros s s'.
  assert (wf (self s)) as Hwf
    by (vm_compute; intros a; destruct a; eexists; reflexivity).
  assert (starlette_app (self s) = Some users_app) as Ha by (vm_compute; reflexivity).
  do 2 (split; [done|]).
  destruct (C8_handle_capture (H := demo) other_scope tt s Hwf) as (Hkeep & _).
  destruct (Hkeep users_app Ha) as [Hone Hall].
  split; [exact Hone | exact (Hall _)].
Defined.

(** Two first requests on a fresh instance, interleaved at their awaits. *)
Lemma C9_witness :
  let s := demo_state true false in
  let events := [(http_scope "GET" "/a", tt); (http_scope "GET" "/b", tt)] in
  let pool := [Pending (http_scope "GET" "/a") tt; Pending (http_scope "GET" "/b") tt] in
  let s' := (run_schedule coop_step [0; 1; 0; 1; 1; 0] pool s).2 in
  wf (self s) ∧
  metrics_created (self s) = false ∧
  (create_metrics s).1 = Normal tt ∧
  0 < length events ∧
  registries (world s') = registries (world (create_metrics s).2) ∧
  metrics_created (self s') = true.
Proof.
  intros s events pool s'.
  assert (wf (self s)) as Hwf by (intros a; destruct a; reflexivity).
  assert (metrics_created (self s) = false) as Hc by reflexivity.
  assert ((create_metrics s).1 = Normal tt) as Hcm by (vm_compute; reflexivity).
  assert (0 < length events) as Hi by (simpl; lia).
  do 4 (split; [done|]).
  exact (C9_cooperative_first_requests (H := demo) events [1; 0; 1; 1; 0] 0 s
           Hwf Hc Hcm Hi).
Defined.

(** The same two first requests run by two threads that are switched
    between the test of the flag and [create_metrics]: both read the flag
    unset, both create the metrics, and the second registration of
    [requests_total_counter] is refused. *)
Lemma C9_counterexample :
  let s := demo_state true false in
  let pool := [Pending (http_scope "GET" "/a") tt; Pending (http_scope "GET" "/b") tt] in
  let threads := run_schedule step [0; 1; 0; 1] pool s in
  metrics_created (self s) = false ∧
  registries (world s) REGISTRY = [] ∧
  threads.1 !! 1 =
    Some (Finished (Raises (Foreign (ValueError
      "A collector for requests_total_counter is already registered")))) ∧
  def_name <$> registries (world threads.2) REGISTRY =
    ["requests_total_counter"; "responses_total_counter";
     "exceptions_total_counter"; "status_codes_counter"].
Proof. cbv zeta. split_and!; vm_compute; reflexivity. Qed.

(** An event of a type the middleware does not know, on an instance whose
    metrics exist. *)
Lemma C10_witness :
  let s := (__call__ (http_scope "GET" "/orders/9") tt (demo_state true false)).2 in
  let s' := (__call__ unknown_scope tt s).2 in
  wf (self s) ∧
  (scope_type unknown_scope ∉ ["lifespan"; "http"; "websocket"]) ∧
  metrics_created (self s) = true ∧
  invocations (world s') = invocations (world s) ∧
  outbox (world s') = outbox (world s) ∧
  (∀ a, incs a (self s') = incs a (self s)) ∧
  (__call__ unknown_scope tt s).1 = Normal tt ∧
  s' = s.
Proof.
  intros s s'.
  assert (wf (self s)) as Hwf
    by (vm_compute; intros a; destruct a; eexists; reflexivity).
  assert (scope_type unknown_scope ∉ ["lifespan"; "http"; "websocket"]) as Hty
    by compute_done.
  assert (metrics_created (self s) = true) as Hc by (vm_compute; reflexivity).
  do 3 (split; [done|]).
  destruct (C10_other_event_dropped (H := demo) unknown_scope tt s Hwf Hty)
    as (Hinv & Hout & Hincs & _ & _ & _ & Hsame).
  destruct (Hsame Hc) as [Hres Hs].
  split; [exact Hinv|]. split; [exact Hout|]. split; [exact Hincs|].
  split; [exact Hres | exact Hs].
Defined.

(** *** The further properties at work *)

(** The application start-up event: the demo application answers even
    that with a response start, which no counter records. *)
Lemma lifespan_passes_through_witness :
  let s := demo_state true false in
  let s' := (__call__ other_scope tt s).2 in
  wf (self s) ∧
  (ensure_metrics s).1 = Normal tt ∧
  scope_type other_scope = "lifespan" ∧
  (__call__ other_scope tt s).1 = Normal tt ∧
  (∀ a, incs a (self s') = incs a (self s)) ∧
  invocations (world s') =
    [{| inv_scope := other_scope; inv_receive := tt; inv_send := OriginalSend |}] ∧
  outbox (world s') = [response_start 200; response_body "ok"].
Proof.
  intros s s'.
  assert (wf (self s)) as Hwf by apply demo_wf.
  assert ((ensure_metrics s).1 = Normal tt) as Hen by (vm_compute; reflexivity).
  assert (scope_type other_scope = "lifespan") as Hty by reflexivity.
  do 3 (split; [done|]).
  exact (lifespan_passes_through (H := demo) other_scope tt s Hwf Hen Hty).
Defined.


(** [GET /late] again: one request, two responses (200 and 500), one
    exception. *)
Lemma tracked_request_accounting_witness :
  let s := demo_state true false in
  let scope := http_scope "GET" "/late" in
  let s' := (__call__ scope tt s).2 in
  let labels := request_labels (Some "GET") "/late" in
  wf (self s) ∧
  (ensure_metrics s).1 = Normal tt ∧
  scope_type scope ∈ ["http"; "websocket"] ∧
  (get_full_or_template_path (capture scope (self s)) scope ∉ exclude_paths (self s)) ∧
  incs requests_counter_attr (self s') = [labels] ∧
  incs responses_counter_attr (self s') = [labels; labels] ∧
  incs status_codes_counter_attr (self s') =
    [with_status_code "200" labels; with_status_code "500" labels] ∧
  incs exceptions_counter_attr (self s') = [labels].
Proof.
  intros s scope s' labels.
  assert (wf (self s)) as Hwf by apply demo_wf.
  assert ((ensure_metrics s).1 = Normal tt) as Hen by (vm_compute; reflexivity).
  assert (scope_type scope ∈ ["http"; "websocket"]) as Hty by compute_done.
  assert (get_full_or_template_path (capture scope (self s)) scope
            ∉ exclude_paths (self s)) as Hnex by compute_done.
  do 4 (split; [done|]).
  exact (tracked_request_accounting (H := demo) scope tt s Hwf Hen Hty Hnex).
Defined.

(** [GET /gone]: the request is cancelled. *)
Lemma base_exception_not_counted_witness :
  let s := demo_state true false in
  let scope := http_scope "GET" "/gone" in
  let s' := (__call__ scope tt s).2 in
  wf (self s) ∧
  (ensure_metrics s).1 = Normal tt ∧
  scope_type scope ∈ ["http"; "websocket"] ∧
  (get_full_or_template_path (capture scope (self s)) scope ∉ exclude_paths (self s)) ∧
  outcome (asgi_callable (self s) scope tt) = Some CancelledError ∧
  isinstance_Exception CancelledError = false ∧
  (__call__ scope tt s).1 = Raises (Foreign CancelledError) ∧
  incs exceptions_counter_attr (self s') = [] ∧
  incs requests_counter_attr (self s') = [request_labels (Some "GET") "/gone"] ∧
  incs responses_counter_attr (self s') = [] ∧
  incs status_codes_counter_attr (self s') = [].
Proof.
  intros s scope s'.
  assert (wf (self s)) as Hwf by apply demo_wf.
  assert ((ensure_metrics s).1 = Normal tt) as Hen by (vm_compute; reflexivity).
  assert (scope_type scope ∈ ["http"; "websocket"]) as Hty by compute_done.
  assert (get_full_or_template_path (capture scope (self s)) scope
            ∉ exclude_paths (self s)) as Hnex by compute_done.
  assert (outcome (asgi_callable (self s) scope tt) = Some CancelledError) as Hout
    by (vm_compute; reflexivity).
  assert (isinstance_Exception CancelledError = false) as Hbase by reflexivity.
  do 6 (split; [done|]).
  exact (base_exception_not_counted (H := demo) scope tt s CancelledError
           Hwf Hen Hty Hnex Hout Hbase).
Defined.

(** [GET /docs] is handed the caller's [send]. *)
Lemma counted_iff_not_excluded_witness :
  let s := demo_state true false in
  let scope := http_scope "GET" "/docs" in
  let s' := (__call__ scope tt s).2 in
  wf (self s) ∧
  (ensure_metrics s).1 = Normal tt ∧
  scope_type scope ∈ ["http"; "websocket"] ∧
  (get_full_or_template_path (capture scope (self s)) scope ∈ exclude_paths (self s)) ∧
  (∀ a, incs a (self s') = incs a (self s)) ∧
  invocations (world s') =
    [{| inv_scope := scope; inv_receive := tt; inv_send := OriginalSend |}].
Proof.
  intros s scope s'.
  assert (wf (self s)) as Hwf by apply demo_wf.
  assert ((ensure_metrics s).1 = Normal tt) as Hen by (vm_compute; reflexivity).
  assert (scope_type scope ∈ ["http"; "websocket"]) as Hty by compute_done.
  assert (get_full_or_template_path (capture scope (self s)) scope
            ∈ exclude_paths (self s)) as Hex by compute_done.
  do 4 (split; [done|]).
  destruct (counted_iff_not_excluded (H := demo) scope tt s Hwf Hen Hty)
    as (_ & Hiff & Hinv).
  split; [exact (proj1 Hiff Hex) | exact Hinv].
Defined.

(** A second instance over the registry of the first: its first call is
    refused at the first counter, and so will its next call be. *)
Lemma first_call_registers_in_order_witness :
  let first := (__call__ (http_scope "GET" "/orders/9") tt (demo_state true false)).2 in
  let s := {| self := demo_instance true false; world := world first |} in
  let scope := http_scope "GET" "/orders/9" in
  let e := ValueError "A collector for requests_total_counter is already registered" in
  let s' := (__call__ scope tt s).2 in
  wf (self s) ∧
  metrics_created (self s) = false ∧
  (register_all (metric_defs (self s)) (registries (world s) REGISTRY)).1 = Some e ∧
  (__call__ scope tt s).1 = Raises (Foreign e) ∧
  invocations (world s') = invocations (world s) ∧
  outbox (world s') = outbox (world s) ∧
  ensure_metrics s' = create_metrics s'.
Proof.
  intros first s scope e s'.
  assert (wf (self s)) as Hwf by apply demo_wf.
  assert (metrics_created (self s) = false) as Hc by reflexivity.
  assert ((register_all (metric_defs (self s)) (registries (world s) REGISTRY)).1
          = Some e) as Hout by (vm_compute; reflexivity).
  do 3 (split; [done|]).
  destruct (first_call_registers_in_order (H := demo) scope tt s Hwf Hc)
    as (_ & _ & Hrefused).
  exact (Hrefused e Hout).
Defined.

(** Three events on a fresh instance. *)
Lemma configuration_and_other_registries_untouched_witness :
  let s := demo_state true false in
  let events := [(other_scope, tt); (http_scope "GET" "/users/42", tt);
                 (http_scope "GET" "/boom", tt)] in
  wf (self s) ∧
  same_config (self s) (self (serve events s)) ∧
  ∀ r', r' ≠ REGISTRY → registries (world (serve events s)) r' = [].
Proof.
  intros s events.
  assert (wf (self s)) as Hwf by apply demo_wf.
  split; [done|].
  exact (configuration_and_other_registries_untouched (H := demo) events s Hwf).
Defined.


(** Two more requests after a first one. *)
Lemma counters_only_grow_witness :
  let s := (__call__ (http_scope "GET" "/orders/9") tt (demo_state true false)).2 in
  let events := [(http_scope "GET" "/boom", tt); (http_scope "GET" "/orders/9", tt)] in
  wf (self s) ∧
  incs requests_counter_attr (self s)
    `prefix_of` incs requests_counter_attr (self (serve events s)) ∧
  ∀ labels, value requests_counter_attr labels (self s)
            ≤ value requests_counter_attr labels (self (serve events s)).
Proof.
  intros s events.
  assert (wf (self s)) as Hwf
    by (vm_compute; intros a; destruct a; eexists; reflexivity).
  split; [done|].
  exact (counters_only_grow (H := demo) events s requests_counter_attr Hwf).
Defined.

(** A websocket and a failing request on a fresh instance. *)
Lemma samples_carry_their_label_names_witness :
  let events := [(websocket_scope "/ws", tt); (http_scope "GET" "/boom", tt)] in
  __init__ demo_app (RegRegistry REGISTRY) EXCLUDE_PATHS true false None empty_world =
    (Normal (demo_instance true false), empty_world) ∧
  well_labelled (self (serve events (demo_state true false))).
Proof.
  intros events.
  pose proof (demo_init true false) as Hinit.
  split; [done|].
  exact (samples_carry_their_label_names (H := demo) _ _ _ _ _ _ _ _ _ events Hinit).
Defined.

(** [GET /late] three times. *)
Lemma repeated_request_adds_up_witness :
  let s := demo_state true false in
  let scope := http_scope "GET" "/late" in
  let labels := request_labels (Some "GET") "/late" in
  let s' := serve (replicate 3 (scope, tt)) s in
  wf (self s) ∧
  (ensure_metrics s).1 = Normal tt ∧
  scope_type scope ∈ ["http"; "websocket"] ∧
  (get_full_or_template_path (capture scope (self s)) scope ∉ exclude_paths (self s)) ∧
  value requests_counter_attr labels (self s') = 3 ∧
  value responses_counter_attr labels (self s') = 6 ∧
  value exceptions_counter_attr labels (self s') = 3.
Proof.
  intros s scope labels s'.
  assert (wf (self s)) as Hwf by apply demo_wf.
  assert ((ensure_metrics s).1 = Normal tt) as Hen by (vm_compute; reflexivity).
  assert (scope_type scope ∈ ["http"; "websocket"]) as Hty by compute_done.
  assert (get_full_or_template_path (capture scope (self s)) scope
            ∉ exclude_paths (self s)) as Hnex by compute_done.
  do 4 (split; [done|]).
  destruct (repeated_request_adds_up (H := demo) 3 scope tt s labels Hwf Hen Hty Hnex)
    as (Hreq & Hresp & Hexc).
  split; [|split].
  - etrans; [exact Hreq | vm_compute; reflexivity].
  - etrans; [exact Hresp | vm_compute; reflexivity].
  - etrans; [exact Hexc | vm_compute; reflexivity].
Defined.

(** The first request of a fresh instance, [GET /users/42]: the handle
    comes with the request and the template is the label at once. *)
Lemma first_request_counted_under_template_witness :
  let s := demo_state true false in
  let scope := http_scope "GET" "/users/42" in
  let s' := (__call__ scope tt s).2 in
  wf (self s) ∧
  (ensure_metrics s).1 = Normal tt ∧
  scope_type scope ∈ ["http"; "websocket"] ∧
  use_template_urls (self s) = true ∧
  starlette_app (self s) = None ∧
  scope_app scope = Some users_app ∧
  route_loop (routes users_app) scope = Some "/users/{id}" ∧
  starlette_app (self s') = Some users_app ∧
  incs requests_counter_attr (self s') =
    [request_labels (Some "GET") "/users/{id}"].
Proof.
  intros s scope s'.
  assert (wf (self s)) as Hwf by apply demo_wf.
  assert ((ensure_metrics s).1 = Normal tt) as Hen by (vm_compute; reflexivity).
  assert (scope_type scope ∈ ["http"; "websocket"]) as Hty by compute_done.
  assert (use_template_urls (self s) = true) as Hu by reflexivity.
  assert (starlette_app (self s) = None) as Ha by reflexivity.
  assert (scope_app scope = Some users_app) as Happ by reflexivity.
  assert (route_loop (routes users_app) scope = Some "/users/{id}") as Hr
    by (vm_compute; reflexivity).
  do 7 (split; [done|]).
  exact (first_request_counted_under_template (H := demo) scope tt s users_app
           "/users/{id}" Hwf Hen Hty Hu Ha Happ Hr).
Defined.

(** A negative status. *)
Lemma status_label_never_raises_witness :
  (-5 < 0)%Z ∧ status_code_label (H := demo) true (-5) = Normal "-xx".
Proof.
  assert (-5 < 0)%Z as Hneg by lia.
  split; [done|].
  exact (proj1 (proj2 (status_label_never_raises (H := demo) true (-5))) Hneg).
Defined.

(** 200 and 204 share the label [2xx]. *)
Lemma status_labels_distinguish_witness :
  (100 ≤ 200 ≤ 999)%Z ∧ (100 ≤ 204 ≤ 999)%Z ∧
  status_code_label (H := demo) true 200 = status_code_label (H := demo) true 204.
Proof.
  assert (100 ≤ 200 ≤ 999)%Z as Ha by lia.
  assert (100 ≤ 204 ≤ 999)%Z as Hb by lia.
  do 2 (split; [done|]).
  exact (proj2 (proj2 (status_labels_distinguish (H := demo) 200 204) Ha Hb) eq_refl).
Defined.


(** *** Further examples *)

(** A second instance over the same registry may be built at any time; it
    is its first call that the registry refuses, once the first instance
    has registered its counters. *)
Example second_instance_first_call :
  let s := (__call__ (http_scope "GET" "/orders/9") tt (demo_state true false)).2 in
  let second := {| self := demo_instance true false; world := world s |} in
  __init__ demo_app (RegRegistry REGISTRY) EXCLUDE_PATHS true false None (world s) =
    (Normal (demo_instance true false), world s) ∧
  (__call__ (http_scope "GET" "/orders/9") tt second).1 =
    Raises (Foreign (ValueError
      "A collector for requests_total_counter is already registered")).
Proof. cbv zeta. split; [reflexivity | vm_compute; reflexivity]. Qed.

(** A cancellation is not an [Exception]: it passes through uncounted. *)
Example cancelled_request_not_counted :
  let s' := (__call__ (http_scope "GET" "/gone") tt (demo_state true false)) in
  s'.1 = Raises (Foreign CancelledError) ∧
  length (incs requests_counter_attr (self s'.2)) = 1 ∧
  incs exceptions_counter_attr (self s'.2) = [] ∧
  incs responses_counter_attr (self s'.2) = [].
Proof. cbv zeta. split_and!; vm_compute; reflexivity. Qed.

(** The same request twice: the counters add up. *)
Example same_request_twice :
  let scope := http_scope "GET" "/users/42" in
  let s' := serve [(scope, tt); (scope, tt)] (demo_state true false) in
  Counter_get (request_labels (Some "GET") "/users/{id}")
    <$> requests_counter (self s') = Some 2 ∧
  Counter_get (with_status_code "200" (request_labels (Some "GET") "/users/{id}"))
    <$> status_codes_counter (self s') = Some 2.
Proof. cbv zeta. split; vm_compute; reflexivity. Qed.

(** Exclusion is an exact match: a path that only starts like an excluded
    one is counted. *)
Example longer_path_not_excluded :
  let scope := http_scope "GET" "/metrics/extra" in
  let s' := (__call__ scope tt (demo_state true false)).2 in
  incs requests_counter_attr (self s') =
    [request_labels (Some "GET") "/metrics/extra"].
Proof. vm_compute. reflexivity. Qed.
